(** * mipi.py: MIPI DSI transactions and DCS commands

    A shallow embedding of [src/mipi.py]: the parameter codecs
    ([_hex_fill], [_get_params_hex], [_get_params_int],
    [TearMode.get_params]), the two enumerations with their attached
    attributes ([DCSCommand], [Transaction]), the resolver
    [DCSCommand.find] and the generators ([_generate_dcs_write],
    [_generate_peripheral], ...), followed by the properties of the
    natural-language specification that concern them.

    Conventions of the embedding:
    - Python [bytes] is [list byte]; an element read as [int] is
      [Byte.to_N].
    - Python [int] is [N] where the source only produces non-negative
      values (byte values, [int.from_bytes]) and [Z] where it subtracts
      or stores [-1] ([nargs], [max_args]).
    - [None] attributes are [option]; truthiness tests are written out.
    - A raised exception is [Raise e], with [e] the exception class;
      [try ... except ValueError] is [catch_ValueError]. *)

From Stdlib Require Import List Strings.String Strings.Ascii Strings.Byte NArith ZArith Lia Bool.
Import ListNotations.

Local Open Scope string_scope.

(** ** Exceptions as an error monad *)

Inductive exn : Set :=
| ValueError
| IndexError.

Inductive result (A : Type) : Type :=
| Return (a : A)
| Raise (e : exn).

Arguments Return {A} a.
Arguments Raise {A} e.

Definition bind {A B : Type} (m : result A) (k : A -> result B) : result B :=
  match m with
  | Return a => k a
  | Raise e => Raise e
  end.

Notation "x <- m ;; k" := (bind m (fun x => k))
  (at level 61, m at next level, right associativity).

(** [try: m except ValueError: h] *)
Definition catch_ValueError {A : Type} (m : result A) (h : result A) : result A :=
  match m with
  | Raise ValueError => h
  | _ => m
  end.

(** [[f(x) for x in l]] where [f] may raise: left to right, the first
    exception aborts the comprehension. *)
Fixpoint mapM {A B : Type} (f : A -> result B) (l : list A) : result (list B) :=
  match l with
  | [] => Return []
  | x :: l' => y <- f x ;; ys <- mapM f l' ;; Return (y :: ys)
  end.

(** ** String helpers standing for Python built-ins *)

Definition tab : string := String "009"%char "".
Definition nl : string := String "010"%char "".
Definition dquote : string := String "034"%char "".

(** [sep.join(p)] *)
Fixpoint join (sep : string) (p : list string) : string :=
  match p with
  | [] => ""
  | [s] => s
  | s :: p' => s ++ sep ++ join sep p'
  end.

(** [c.lower()] on one ASCII character. *)
Definition lower_ascii (c : ascii) : ascii :=
  let n := N_of_ascii c in
  if ((65 <=? n) && (n <=? 90))%N then ascii_of_N (n + 32) else c.

(** [s.lower()] *)
Fixpoint lower (s : string) : string :=
  match s with
  | EmptyString => EmptyString
  | String c s' => String (lower_ascii c) (lower s')
  end.

(** [s.replace('_', ' ')] (single-character pattern and replacement). *)
Fixpoint replace_char (old new : ascii) (s : string) : string :=
  match s with
  | EmptyString => EmptyString
  | String c s' =>
      String (if Ascii.eqb c old then new else c) (replace_char old new s')
  end.

(** *** Hexadecimal formatting: [f'{i:#0{w}x}'] *)

Definition hex_digit (d : N) : ascii :=
  match d with
  | 0 => "0" | 1 => "1" | 2 => "2" | 3 => "3"
  | 4 => "4" | 5 => "5" | 6 => "6" | 7 => "7"
  | 8 => "8" | 9 => "9" | 10 => "a" | 11 => "b"
  | 12 => "c" | 13 => "d" | 14 => "e" | _ => "f"
  end%N%char.

(** The digits of [n] in base 16, most significant first, without
    leading zeros ([0] prints as one digit). *)
Fixpoint hex_digits_aux (fuel : nat) (n : N) (acc : string) : string :=
  match fuel with
  | O => acc
  | S fuel' =>
      let acc' := String (hex_digit (n mod 16)) acc in
      if (n / 16 =? 0)%N then acc' else hex_digits_aux fuel' (n / 16) acc'
  end.

Definition hex_digits (n : N) : string :=
  hex_digits_aux (S (N.to_nat (N.size n))) n "".

Fixpoint zeros (k : nat) : string :=
  match k with
  | O => ""
  | S k' => String "0" (zeros k')
  end.

(** [format(i, '#0{width}x')] for [i >= 0]: the prefix [0x], then the
    digits padded with zeros on the left so that the whole token has at
    least [width] characters. *)
Definition format_hex (i : N) (width : nat) : string :=
  let ds := hex_digits i in
  "0x" ++ zeros (width - 2 - String.length ds) ++ ds.

(** [int.from_bytes(t, byteorder=...)], unsigned. *)
Definition from_bytes_big (t : list byte) : N :=
  fold_left (fun acc b => (acc * 256 + Byte.to_N b)%N) t 0%N.

Definition int_from_bytes (t : list byte) (byteorder : string) : result N :=
  if String.eqb byteorder "big" then Return (from_bytes_big t)
  else if String.eqb byteorder "little" then Return (from_bytes_big (rev t))
  else Raise ValueError.

(** ** Parameter codecs *)

(** [def _hex_fill(i, size=1)]: [f'{i:#0{size * 2 + 2}x}']. The source
    only calls it on byte values and on results of [int.from_bytes],
    with the [size] of a tuple that [zip] produced, hence [N] and
    [nat]. *)
Definition _hex_fill (i : N) (size : nat) : string :=
  format_hex i (size * 2 + 2).

(** [def _join_params(p)] *)
Definition _join_params (p : list string) : string :=
  match p with
  | [] => ""
  | _ => ", " ++ join ", " p
  end.

(** [def _get_params_hex(b)] *)
Definition _get_params_hex (b : list byte) : list string :=
  map (fun i => _hex_fill (Byte.to_N i) 1) b.

(** One round of [zip] over [size] references to the one iterator
    [itr] (the source unpacks the list [[itr] * size]): [next] is
    called [size] times on the shared iterator; when it is exhausted
    before the tuple is complete, [zip] stops and the elements already
    taken are lost. *)
Fixpoint next_tuple (size : nat) (itr : list byte) : option (list byte * list byte) :=
  match size with
  | O => Some ([], itr)
  | S size' =>
      match itr with
      | [] => None
      | x :: itr' =>
          match next_tuple size' itr' with
          | Some (t, rest) => Some (x :: t, rest)
          | None => None
          end
      end
  end.

Fixpoint zip_shared_aux (fuel size : nat) (itr : list byte) : list (list byte) :=
  match fuel with
  | O => []
  | S fuel' =>
      match next_tuple size itr with
      | Some (t, rest) => t :: zip_shared_aux fuel' size rest
      | None => []
      end
  end.

(** [zip] over the unpacked [[itr] * size] with [itr = iter(b)].
    [zip()] of no iterator at all ([size = 0]) is empty. Every round of
    a positive [size] consumes at least one byte, so [length b] rounds
    exhaust [b]. *)
Definition zip_shared (size : nat) (b : list byte) : list (list byte) :=
  match size with
  | O => []
  | S _ => zip_shared_aux (List.length b) size b
  end.

(** [def _get_params_int(size, byteoder)], the closure it returns. *)
Definition _get_params_int (size : nat) (byteoder : string) (b : list byte)
  : result (list string) :=
  mapM (fun t => i <- int_from_bytes t byteoder ;; Return (_hex_fill i size))
       (zip_shared size b).

(** ** [class TearMode(IntEnum)] *)

Inductive TearMode : Set :=
| VBLANK
| VHBLANK.

Definition TearMode_value (m : TearMode) : N :=
  match m with
  | VBLANK => 0
  | VHBLANK => 1
  end.

Definition TearMode_name (m : TearMode) : string :=
  match m with
  | VBLANK => "VBLANK"
  | VHBLANK => "VHBLANK"
  end.

Definition TearMode_members : list TearMode := [VBLANK; VHBLANK].

(** [TearMode(v)]: the member of value [v], [ValueError] when there is
    none. *)
Definition TearMode_call (v : N) : result TearMode :=
  match find (fun m => N.eqb (TearMode_value m) v) TearMode_members with
  | Some m => Return m
  | None => Raise ValueError
  end.

(** [TearMode.identifier] *)
Definition TearMode_identifier (self : TearMode) : string :=
  "MIPI_DSI_DCS_TEAR_MODE_" ++ TearMode_name self.

(** [TearMode.get_params(b)]: [b[0]] raises [IndexError] on empty
    [bytes]. *)
Definition TearMode_get_params (b : list byte) : result (list string) :=
  match b with
  | [] => Raise IndexError
  | b0 :: _ => m <- TearMode_call (Byte.to_N b0) ;; Return [TearMode_identifier m]
  end.

(** ** [class DCSCommand(Enum)] *)

Inductive DCSCommand : Set :=
| NOP
| SOFT_RESET
| GET_DISPLAY_ID
| GET_RED_CHANNEL
| GET_GREEN_CHANNEL
| GET_BLUE_CHANNEL
| GET_DISPLAY_STATUS
| GET_POWER_MODE
| GET_ADDRESS_MODE
| GET_PIXEL_FORMAT
| GET_DISPLAY_MODE
| GET_SIGNAL_MODE
| GET_DIAGNOSTIC_RESULT
| ENTER_SLEEP_MODE
| EXIT_SLEEP_MODE
| ENTER_PARTIAL_MODE
| ENTER_NORMAL_MODE
| EXIT_INVERT_MODE
| ENTER_INVERT_MODE
| SET_GAMMA_CURVE
| SET_DISPLAY_OFF
| SET_DISPLAY_ON
| SET_COLUMN_ADDRESS
| SET_PAGE_ADDRESS
| WRITE_MEMORY_START
| WRITE_LUT
| READ_MEMORY_START
| SET_PARTIAL_AREA
| SET_SCROLL_AREA
| SET_TEAR_OFF
| SET_TEAR_ON
| SET_ADDRESS_MODE
| SET_SCROLL_START
| EXIT_IDLE_MODE
| ENTER_IDLE_MODE
| SET_PIXEL_FORMAT
| WRITE_MEMORY_CONTINUE
| READ_MEMORY_CONTINUE
| SET_TEAR_SCANLINE
| GET_SCANLINE
| SET_DISPLAY_BRIGHTNESS
| GET_DISPLAY_BRIGHTNESS
| WRITE_CONTROL_DISPLAY
| GET_CONTROL_DISPLAY
| WRITE_POWER_SAVE
| GET_POWER_SAVE
| SET_CABC_MIN_BRIGHTNESS
| GET_CABC_MIN_BRIGHTNESS
| READ_DDB_START
| READ_DDB_CONTINUE.

Definition DCSCommand_members : list DCSCommand :=
  [ NOP; SOFT_RESET; GET_DISPLAY_ID; GET_RED_CHANNEL; GET_GREEN_CHANNEL;
    GET_BLUE_CHANNEL; GET_DISPLAY_STATUS; GET_POWER_MODE; GET_ADDRESS_MODE;
    GET_PIXEL_FORMAT; GET_DISPLAY_MODE; GET_SIGNAL_MODE; GET_DIAGNOSTIC_RESULT;
    ENTER_SLEEP_MODE; EXIT_SLEEP_MODE; ENTER_PARTIAL_MODE; ENTER_NORMAL_MODE;
    EXIT_INVERT_MODE; ENTER_INVERT_MODE; SET_GAMMA_CURVE; SET_DISPLAY_OFF;
    SET_DISPLAY_ON; SET_COLUMN_ADDRESS; SET_PAGE_ADDRESS; WRITE_MEMORY_START;
    WRITE_LUT; READ_MEMORY_START; SET_PARTIAL_AREA; SET_SCROLL_AREA;
    SET_TEAR_OFF; SET_TEAR_ON; SET_ADDRESS_MODE; SET_SCROLL_START;
    EXIT_IDLE_MODE; ENTER_IDLE_MODE; SET_PIXEL_FORMAT; WRITE_MEMORY_CONTINUE;
    READ_MEMORY_CONTINUE; SET_TEAR_SCANLINE; GET_SCANLINE;
    SET_DISPLAY_BRIGHTNESS; GET_DISPLAY_BRIGHTNESS; WRITE_CONTROL_DISPLAY;
    GET_CONTROL_DISPLAY; WRITE_POWER_SAVE; GET_POWER_SAVE;
    SET_CABC_MIN_BRIGHTNESS; GET_CABC_MIN_BRIGHTNESS; READ_DDB_START;
    READ_DDB_CONTINUE ].

Definition DCSCommand_name (self : DCSCommand) : string :=
  match self with
  | NOP => "NOP"
  | SOFT_RESET => "SOFT_RESET"
  | GET_DISPLAY_ID => "GET_DISPLAY_ID"
  | GET_RED_CHANNEL => "GET_RED_CHANNEL"
  | GET_GREEN_CHANNEL => "GET_GREEN_CHANNEL"
  | GET_BLUE_CHANNEL => "GET_BLUE_CHANNEL"
  | GET_DISPLAY_STATUS => "GET_DISPLAY_STATUS"
  | GET_POWER_MODE => "GET_POWER_MODE"
  | GET_ADDRESS_MODE => "GET_ADDRESS_MODE"
  | GET_PIXEL_FORMAT => "GET_PIXEL_FORMAT"
  | GET_DISPLAY_MODE => "GET_DISPLAY_MODE"
  | GET_SIGNAL_MODE => "GET_SIGNAL_MODE"
  | GET_DIAGNOSTIC_RESULT => "GET_DIAGNOSTIC_RESULT"
  | ENTER_SLEEP_MODE => "ENTER_SLEEP_MODE"
  | EXIT_SLEEP_MODE => "EXIT_SLEEP_MODE"
  | ENTER_PARTIAL_MODE => "ENTER_PARTIAL_MODE"
  | ENTER_NORMAL_MODE => "ENTER_NORMAL_MODE"
  | EXIT_INVERT_MODE => "EXIT_INVERT_MODE"
  | ENTER_INVERT_MODE => "ENTER_INVERT_MODE"
  | SET_GAMMA_CURVE => "SET_GAMMA_CURVE"
  | SET_DISPLAY_OFF => "SET_DISPLAY_OFF"
  | SET_DISPLAY_ON => "SET_DISPLAY_ON"
  | SET_COLUMN_ADDRESS => "SET_COLUMN_ADDRESS"
  | SET_PAGE_ADDRESS => "SET_PAGE_ADDRESS"
  | WRITE_MEMORY_START => "WRITE_MEMORY_START"
  | WRITE_LUT => "WRITE_LUT"
  | READ_MEMORY_START => "READ_MEMORY_START"
  | SET_PARTIAL_AREA => "SET_PARTIAL_AREA"
  | SET_SCROLL_AREA => "SET_SCROLL_AREA"
  | SET_TEAR_OFF => "SET_TEAR_OFF"
  | SET_TEAR_ON => "SET_TEAR_ON"
  | SET_ADDRESS_MODE => "SET_ADDRESS_MODE"
  | SET_SCROLL_START => "SET_SCROLL_START"
  | EXIT_IDLE_MODE => "EXIT_IDLE_MODE"
  | ENTER_IDLE_MODE => "ENTER_IDLE_MODE"
  | SET_PIXEL_FORMAT => "SET_PIXEL_FORMAT"
  | WRITE_MEMORY_CONTINUE => "WRITE_MEMORY_CONTINUE"
  | READ_MEMORY_CONTINUE => "READ_MEMORY_CONTINUE"
  | SET_TEAR_SCANLINE => "SET_TEAR_SCANLINE"
  | GET_SCANLINE => "GET_SCANLINE"
  | SET_DISPLAY_BRIGHTNESS => "SET_DISPLAY_BRIGHTNESS"
  | GET_DISPLAY_BRIGHTNESS => "GET_DISPLAY_BRIGHTNESS"
  | WRITE_CONTROL_DISPLAY => "WRITE_CONTROL_DISPLAY"
  | GET_CONTROL_DISPLAY => "GET_CONTROL_DISPLAY"
  | WRITE_POWER_SAVE => "WRITE_POWER_SAVE"
  | GET_POWER_SAVE => "GET_POWER_SAVE"
  | SET_CABC_MIN_BRIGHTNESS => "SET_CABC_MIN_BRIGHTNESS"
  | GET_CABC_MIN_BRIGHTNESS => "GET_CABC_MIN_BRIGHTNESS"
  | READ_DDB_START => "READ_DDB_START"
  | READ_DDB_CONTINUE => "READ_DDB_CONTINUE"
  end.

(** The first component of the member's definition: [obj._value_]. *)
Definition DCSCommand_value (self : DCSCommand) : N :=
  match self with
  | NOP => 0x00
  | SOFT_RESET => 0x01
  | GET_DISPLAY_ID => 0x04
  | GET_RED_CHANNEL => 0x06
  | GET_GREEN_CHANNEL => 0x07
  | GET_BLUE_CHANNEL => 0x08
  | GET_DISPLAY_STATUS => 0x09
  | GET_POWER_MODE => 0x0A
  | GET_ADDRESS_MODE => 0x0B
  | GET_PIXEL_FORMAT => 0x0C
  | GET_DISPLAY_MODE => 0x0D
  | GET_SIGNAL_MODE => 0x0E
  | GET_DIAGNOSTIC_RESULT => 0x0F
  | ENTER_SLEEP_MODE => 0x10
  | EXIT_SLEEP_MODE => 0x11
  | ENTER_PARTIAL_MODE => 0x12
  | ENTER_NORMAL_MODE => 0x13
  | EXIT_INVERT_MODE => 0x20
  | ENTER_INVERT_MODE => 0x21
  | SET_GAMMA_CURVE => 0x26
  | SET_DISPLAY_OFF => 0x28
  | SET_DISPLAY_ON => 0x29
  | SET_COLUMN_ADDRESS => 0x2A
  | SET_PAGE_ADDRESS => 0x2B
  | WRITE_MEMORY_START => 0x2C
  | WRITE_LUT => 0x2D
  | READ_MEMORY_START => 0x2E
  | SET_PARTIAL_AREA => 0x30
  | SET_SCROLL_AREA => 0x33
  | SET_TEAR_OFF => 0x34
  | SET_TEAR_ON => 0x35
  | SET_ADDRESS_MODE => 0x36
  | SET_SCROLL_START => 0x37
  | EXIT_IDLE_MODE => 0x38
  | ENTER_IDLE_MODE => 0x39
  | SET_PIXEL_FORMAT => 0x3A
  | WRITE_MEMORY_CONTINUE => 0x3C
  | READ_MEMORY_CONTINUE => 0x3E
  | SET_TEAR_SCANLINE => 0x44
  | GET_SCANLINE => 0x45
  | SET_DISPLAY_BRIGHTNESS => 0x51
  | GET_DISPLAY_BRIGHTNESS => 0x52
  | WRITE_CONTROL_DISPLAY => 0x53
  | GET_CONTROL_DISPLAY => 0x54
  | WRITE_POWER_SAVE => 0x55
  | GET_POWER_SAVE => 0x56
  | SET_CABC_MIN_BRIGHTNESS => 0x5E
  | GET_CABC_MIN_BRIGHTNESS => 0x5F
  | READ_DDB_START => 0xA1
  | READ_DDB_CONTINUE => 0xA8
  end%N.

(** [obj.nargs]: the second component, [None] where the definition has
    none. *)
Definition DCSCommand_nargs (self : DCSCommand) : option Z :=
  match self with
  | NOP | SOFT_RESET
  | ENTER_SLEEP_MODE | EXIT_SLEEP_MODE | ENTER_PARTIAL_MODE | ENTER_NORMAL_MODE
  | EXIT_INVERT_MODE | ENTER_INVERT_MODE
  | SET_DISPLAY_OFF | SET_DISPLAY_ON
  | SET_TEAR_OFF
  | EXIT_IDLE_MODE | ENTER_IDLE_MODE => Some 0
  | SET_GAMMA_CURVE | SET_TEAR_ON | SET_ADDRESS_MODE | SET_PIXEL_FORMAT => Some 1
  | SET_SCROLL_START | SET_TEAR_SCANLINE | SET_DISPLAY_BRIGHTNESS => Some 2
  | SET_COLUMN_ADDRESS | SET_PAGE_ADDRESS => Some 4
  | SET_SCROLL_AREA => Some 6
  | _ => None
  end%Z.

(** [obj.method]: the third component, [None] where the definition has
    none. *)
Definition DCSCommand_method (self : DCSCommand) : option string :=
  match self with
  | NOP => Some "mipi_dsi_dcs_nop"
  | SOFT_RESET => Some "mipi_dsi_dcs_soft_reset"
  | ENTER_SLEEP_MODE => Some "mipi_dsi_dcs_enter_sleep_mode"
  | EXIT_SLEEP_MODE => Some "mipi_dsi_dcs_exit_sleep_mode"
  | SET_DISPLAY_OFF => Some "mipi_dsi_dcs_set_display_off"
  | SET_DISPLAY_ON => Some "mipi_dsi_dcs_set_display_on"
  | SET_COLUMN_ADDRESS => Some "mipi_dsi_dcs_set_column_address"
  | SET_PAGE_ADDRESS => Some "mipi_dsi_dcs_set_page_address"
  | SET_TEAR_OFF => Some "mipi_dsi_dcs_set_tear_off"
  | SET_TEAR_ON => Some "mipi_dsi_dcs_set_tear_on"
  | SET_PIXEL_FORMAT => Some "mipi_dsi_dcs_set_pixel_format"
  | SET_TEAR_SCANLINE => Some "mipi_dsi_dcs_set_tear_scanline"
  | SET_DISPLAY_BRIGHTNESS => Some "mipi_dsi_dcs_set_display_brightness"
  | _ => None
  end.

(** [obj.get_params]: the fourth component, [_get_params_hex] by
    default. *)
Definition DCSCommand_get_params (self : DCSCommand) (b : list byte)
  : result (list string) :=
  match self with
  | SET_COLUMN_ADDRESS | SET_PAGE_ADDRESS | SET_TEAR_SCANLINE =>
      _get_params_int 2 "big" b
  | SET_DISPLAY_BRIGHTNESS => _get_params_int 2 "little" b
  | SET_TEAR_OFF | SET_TEAR_ON => TearMode_get_params b
  | _ => Return (_get_params_hex b)
  end.

(** [DCSCommand(v)]: the member of value [v], [ValueError] when there
    is none. *)
Definition DCSCommand_call (v : N) : result DCSCommand :=
  match find (fun c => N.eqb (DCSCommand_value c) v) DCSCommand_members with
  | Some c => Return c
  | None => Raise ValueError
  end.

(** [DCSCommand.identifier] *)
Definition DCSCommand_identifier (self : DCSCommand) : string :=
  "MIPI_DCS_" ++ DCSCommand_name self.

(** [DCSCommand.description] *)
Definition DCSCommand_description (self : DCSCommand) : string :=
  replace_char "_" " " (lower (DCSCommand_name self)).

(** [len(payload) - 1 == dcs.nargs]: an [int] is never equal to
    [None]. *)
Definition int_eq_opt (i : Z) (o : option Z) : bool :=
  match o with
  | Some n => Z.eqb i n
  | None => false
  end.

(** [DCSCommand.find(payload)]: [payload[0]] raises [IndexError] on
    empty [bytes], which the handler does not catch. *)
Definition DCSCommand_find (payload : list byte) : result (option DCSCommand) :=
  catch_ValueError
    (match payload with
     | [] => Raise IndexError
     | p0 :: _ =>
         dcs <- DCSCommand_call (Byte.to_N p0) ;;
         Return (if int_eq_opt (Z.of_nat (List.length payload) - 1)
                               (DCSCommand_nargs dcs)
                 then Some dcs else None)
     end)
    (Return None).

(** ** Generators *)

(** [def _check_ret(expr, description)]: the text of an error-checked
    call. The f-string starts and ends with a line continuation, so it
    has neither a leading nor a trailing newline; [\\n] is a backslash
    followed by [n]. *)
Definition _check_ret (expr description : string) : string :=
  tab ++ "ret = " ++ expr ++ ";" ++ nl ++
  tab ++ "if (ret < 0) {" ++ nl ++
  tab ++ tab ++ "dev_err(dev, " ++ dquote ++ "Failed to " ++ description
      ++ ": %d\n" ++ dquote ++ ", ret);" ++ nl ++
  tab ++ tab ++ "return ret;" ++ nl ++
  tab ++ "}".

Definition MACROS : list (string * string) :=
  [ ("dsi_generic_write_seq", "mipi_dsi_generic_write");
    ("dsi_dcs_write_seq", "mipi_dsi_dcs_write_buffer") ].

(** [class Transaction(Enum)]: the members; their attributes follow the
    generators, which the definitions of the members refer to. *)
Inductive Transaction : Set :=
| V_SYNC_START
| V_SYNC_END
| H_SYNC_START
| H_SYNC_END
| COLOR_MODE_OFF
| COLOR_MODE_ON
| SHUTDOWN_PERIPHERAL
| TURN_ON_PERIPHERAL
| GENERIC_SHORT_WRITE_0_PARAM
| GENERIC_SHORT_WRITE_1_PARAM
| GENERIC_SHORT_WRITE_2_PARAM
| GENERIC_READ_REQUEST_0_PARAM
| GENERIC_READ_REQUEST_1_PARAM
| GENERIC_READ_REQUEST_2_PARAM
| DCS_SHORT_WRITE
| DCS_SHORT_WRITE_PARAM
| DCS_READ
| DCS_COMPRESSION_MODE
| PPS_LONG_WRITE
| SET_MAXIMUM_RETURN_PACKET_SIZE
| END_OF_TRANSMISSION
| NULL_PACKET
| BLANKING_PACKET
| GENERIC_LONG_WRITE
| DCS_LONG_WRITE
| LOOSELY_PACKED_PIXEL_STREAM_YCBCR20
| PACKED_PIXEL_STREAM_YCBCR24
| PACKED_PIXEL_STREAM_YCBCR16
| PACKED_PIXEL_STREAM_30
| PACKED_PIXEL_STREAM_36
| PACKED_PIXEL_STREAM_YCBCR12
| PACKED_PIXEL_STREAM_16
| PACKED_PIXEL_STREAM_18
| PIXEL_STREAM_3BYTE_18
| PACKED_PIXEL_STREAM_24.

Definition Transaction_members : list Transaction :=
  [ V_SYNC_START; V_SYNC_END; H_SYNC_START; H_SYNC_END;
    COLOR_MODE_OFF; COLOR_MODE_ON; SHUTDOWN_PERIPHERAL; TURN_ON_PERIPHERAL;
    GENERIC_SHORT_WRITE_0_PARAM; GENERIC_SHORT_WRITE_1_PARAM;
    GENERIC_SHORT_WRITE_2_PARAM;
    GENERIC_READ_REQUEST_0_PARAM; GENERIC_READ_REQUEST_1_PARAM;
    GENERIC_READ_REQUEST_2_PARAM;
    DCS_SHORT_WRITE; DCS_SHORT_WRITE_PARAM; DCS_READ;
    DCS_COMPRESSION_MODE; PPS_LONG_WRITE; SET_MAXIMUM_RETURN_PACKET_SIZE;
    END_OF_TRANSMISSION; NULL_PACKET; BLANKING_PACKET;
    GENERIC_LONG_WRITE; DCS_LONG_WRITE;
    LOOSELY_PACKED_PIXEL_STREAM_YCBCR20; PACKED_PIXEL_STREAM_YCBCR24;
    PACKED_PIXEL_STREAM_YCBCR16;
    PACKED_PIXEL_STREAM_30; PACKED_PIXEL_STREAM_36; PACKED_PIXEL_STREAM_YCBCR12;
    PACKED_PIXEL_STREAM_16; PACKED_PIXEL_STREAM_18; PIXEL_STREAM_3BYTE_18;
    PACKED_PIXEL_STREAM_24 ].

Definition Transaction_name (self : Transaction) : string :=
  match self with
  | V_SYNC_START => "V_SYNC_START"
  | V_SYNC_END => "V_SYNC_END"
  | H_SYNC_START => "H_SYNC_START"
  | H_SYNC_END => "H_SYNC_END"
  | COLOR_MODE_OFF => "COLOR_MODE_OFF"
  | COLOR_MODE_ON => "COLOR_MODE_ON"
  | SHUTDOWN_PERIPHERAL => "SHUTDOWN_PERIPHERAL"
  | TURN_ON_PERIPHERAL => "TURN_ON_PERIPHERAL"
  | GENERIC_SHORT_WRITE_0_PARAM => "GENERIC_SHORT_WRITE_0_PARAM"
  | GENERIC_SHORT_WRITE_1_PARAM => "GENERIC_SHORT_WRITE_1_PARAM"
  | GENERIC_SHORT_WRITE_2_PARAM => "GENERIC_SHORT_WRITE_2_PARAM"
  | GENERIC_READ_REQUEST_0_PARAM => "GENERIC_READ_REQUEST_0_PARAM"
  | GENERIC_READ_REQUEST_1_PARAM => "GENERIC_READ_REQUEST_1_PARAM"
  | GENERIC_READ_REQUEST_2_PARAM => "GENERIC_READ_REQUEST_2_PARAM"
  | DCS_SHORT_WRITE => "DCS_SHORT_WRITE"
  | DCS_SHORT_WRITE_PARAM => "DCS_SHORT_WRITE_PARAM"
  | DCS_READ => "DCS_READ"
  | DCS_COMPRESSION_MODE => "DCS_COMPRESSION_MODE"
  | PPS_LONG_WRITE => "PPS_LONG_WRITE"
  | SET_MAXIMUM_RETURN_PACKET_SIZE => "SET_MAXIMUM_RETURN_PACKET_SIZE"
  | END_OF_TRANSMISSION => "END_OF_TRANSMISSION"
  | NULL_PACKET => "NULL_PACKET"
  | BLANKING_PACKET => "BLANKING_PACKET"
  | GENERIC_LONG_WRITE => "GENERIC_LONG_WRITE"
  | DCS_LONG_WRITE => "DCS_LONG_WRITE"
  | LOOSELY_PACKED_PIXEL_STREAM_YCBCR20 => "LOOSELY_PACKED_PIXEL_STREAM_YCBCR20"
  | PACKED_PIXEL_STREAM_YCBCR24 => "PACKED_PIXEL_STREAM_YCBCR24"
  | PACKED_PIXEL_STREAM_YCBCR16 => "PACKED_PIXEL_STREAM_YCBCR16"
  | PACKED_PIXEL_STREAM_30 => "PACKED_PIXEL_STREAM_30"
  | PACKED_PIXEL_STREAM_36 => "PACKED_PIXEL_STREAM_36"
  | PACKED_PIXEL_STREAM_YCBCR12 => "PACKED_PIXEL_STREAM_YCBCR12"
  | PACKED_PIXEL_STREAM_16 => "PACKED_PIXEL_STREAM_16"
  | PACKED_PIXEL_STREAM_18 => "PACKED_PIXEL_STREAM_18"
  | PIXEL_STREAM_3BYTE_18 => "PIXEL_STREAM_3BYTE_18"
  | PACKED_PIXEL_STREAM_24 => "PACKED_PIXEL_STREAM_24"
  end.

(** [Transaction.identifier] *)
Definition Transaction_identifier (self : Transaction) : string :=
  "MIPI_DSI_" ++ Transaction_name self.

(** [Transaction.description] *)
Definition Transaction_description (self : Transaction) : string :=
  replace_char "_" " " (lower (Transaction_name self)).

(** [t == Transaction.X]: members are singletons, compared by identity
    ([Transaction_beq]). *)
Scheme Equality for Transaction.

(** [def _generate_generic_write(t, payload)] *)
Definition _generate_generic_write (t : Transaction) (payload : list byte)
  : result string :=
  Return (tab ++ "dsi_generic_write_seq(dsi"
              ++ _join_params (_get_params_hex payload) ++ ");").

(** A non-empty [str] is true, [None] and the empty [str] are false. *)
Definition truthy (o : option string) : bool :=
  match o with
  | Some s => negb (String.eqb s "")
  | None => false
  end.

(** [args[0] = v]: raises [IndexError] on an empty list. *)
Definition set_item0 (args : list string) (v : string) : result (list string) :=
  match args with
  | [] => Raise IndexError
  | _ :: rest => Return (v :: rest)
  end.

(** [def _generate_dcs_write(t, payload)]. A member of [DCSCommand] is
    always true, so [if dcs] only tests that [find] did not return
    [None]; [raw] is the tail of the function, reached when the first
    [if] does not return. *)
Definition _generate_dcs_write (t : Transaction) (payload : list byte)
  : result string :=
  dcs <- DCSCommand_find payload ;;
  let raw :=
    args <- match dcs with
            | Some d => set_item0 (_get_params_hex payload) (DCSCommand_name d)
            | None => Return (_get_params_hex payload)
            end ;;
    Return (tab ++ "dsi_dcs_write_seq(dsi" ++ _join_params args ++ ");") in
  match dcs with
  | Some d =>
      match DCSCommand_method d with
      | Some m =>
          if truthy (Some m) then
            params <- DCSCommand_get_params d (tl payload) ;;
            Return (_check_ret (m ++ "(dsi" ++ _join_params params ++ ")")
                               (DCSCommand_description d))
          else raw
      | None => raw
      end
  | None => raw
  end.

(** [def _generate_peripheral(t, payload)] *)
Definition _generate_peripheral (t : Transaction) (payload : list byte)
  : result string :=
  if Transaction_beq t TURN_ON_PERIPHERAL then
    Return (_check_ret "mipi_dsi_turn_on_peripheral(dsi)" (Transaction_description t))
  else if Transaction_beq t SHUTDOWN_PERIPHERAL then
    Return (_check_ret "mipi_dsi_shutdown_peripheral(dsi)" (Transaction_description t))
  else Raise ValueError.

(** [def _generate_fallback(t, payload)]: raises [ValueError] with the
    message [t.name + ' is not supported']. *)
Definition _generate_fallback (t : Transaction) (payload : list byte)
  : result string :=
  Raise ValueError.

(** ** [class Transaction(Enum)], the attributes *)

Definition Transaction_value (self : Transaction) : N :=
  match self with
  | V_SYNC_START => 0x01
  | V_SYNC_END => 0x11
  | H_SYNC_START => 0x21
  | H_SYNC_END => 0x31
  | COLOR_MODE_OFF => 0x02
  | COLOR_MODE_ON => 0x12
  | SHUTDOWN_PERIPHERAL => 0x22
  | TURN_ON_PERIPHERAL => 0x32
  | GENERIC_SHORT_WRITE_0_PARAM => 0x03
  | GENERIC_SHORT_WRITE_1_PARAM => 0x13
  | GENERIC_SHORT_WRITE_2_PARAM => 0x23
  | GENERIC_READ_REQUEST_0_PARAM => 0x04
  | GENERIC_READ_REQUEST_1_PARAM => 0x14
  | GENERIC_READ_REQUEST_2_PARAM => 0x24
  | DCS_SHORT_WRITE => 0x05
  | DCS_SHORT_WRITE_PARAM => 0x15
  | DCS_READ => 0x06
  | DCS_COMPRESSION_MODE => 0x07
  | PPS_LONG_WRITE => 0x0A
  | SET_MAXIMUM_RETURN_PACKET_SIZE => 0x37
  | END_OF_TRANSMISSION => 0x08
  | NULL_PACKET => 0x09
  | BLANKING_PACKET => 0x19
  | GENERIC_LONG_WRITE => 0x29
  | DCS_LONG_WRITE => 0x39
  | LOOSELY_PACKED_PIXEL_STREAM_YCBCR20 => 0x0c
  | PACKED_PIXEL_STREAM_YCBCR24 => 0x1c
  | PACKED_PIXEL_STREAM_YCBCR16 => 0x2c
  | PACKED_PIXEL_STREAM_30 => 0x0d
  | PACKED_PIXEL_STREAM_36 => 0x1d
  | PACKED_PIXEL_STREAM_YCBCR12 => 0x3d
  | PACKED_PIXEL_STREAM_16 => 0x0e
  | PACKED_PIXEL_STREAM_18 => 0x1e
  | PIXEL_STREAM_3BYTE_18 => 0x2e
  | PACKED_PIXEL_STREAM_24 => 0x3e
  end%N.

(** [obj.max_args], [-1] by default. *)
Definition Transaction_max_args (self : Transaction) : Z :=
  match self with
  | SHUTDOWN_PERIPHERAL | TURN_ON_PERIPHERAL
  | GENERIC_SHORT_WRITE_0_PARAM | DCS_SHORT_WRITE => 0
  | GENERIC_SHORT_WRITE_1_PARAM | DCS_SHORT_WRITE_PARAM => 1
  | GENERIC_SHORT_WRITE_2_PARAM => 2
  | _ => -1
  end%Z.

(** [obj._generate], [_generate_fallback] by default. *)
Definition Transaction__generate (self : Transaction)
  : Transaction -> list byte -> result string :=
  match self with
  | SHUTDOWN_PERIPHERAL | TURN_ON_PERIPHERAL => _generate_peripheral
  | GENERIC_SHORT_WRITE_0_PARAM | GENERIC_SHORT_WRITE_1_PARAM
  | GENERIC_SHORT_WRITE_2_PARAM | GENERIC_LONG_WRITE => _generate_generic_write
  | DCS_SHORT_WRITE | DCS_SHORT_WRITE_PARAM | DCS_LONG_WRITE => _generate_dcs_write
  | _ => _generate_fallback
  end.

(** [Transaction(v)]: the member of value [v], [ValueError] when there
    is none. *)
Definition Transaction_call (v : N) : result Transaction :=
  match find (fun t => N.eqb (Transaction_value t) v) Transaction_members with
  | Some t => Return t
  | None => Raise ValueError
  end.

(** [Transaction.generate(self, payload)] *)
Definition Transaction_generate (self : Transaction) (payload : list byte)
  : result string :=
  Transaction__generate self self payload.

(** ** Reference definitions for the statements about the codecs

    These are not taken from the source: they say what a hex token
    denotes and what the unsigned value of a group of bytes is, so that
    the output of the codecs can be measured against them. *)

(** The value of one lower-case hex digit, from its character code:
    [0]..[9] are 48..57 and [a]..[f] are 97..102. *)
Definition hex_digit_value (c : ascii) : option N :=
  let code := N_of_ascii c in
  if ((48 <=? code) && (code <=? 57))%N then Some (code - 48)%N
  else if ((97 <=? code) && (code <=? 102))%N then Some (code - 87)%N
  else None.

(** The number written by a string of lower-case hex digits, read from
    the left with [acc] the value of the digits already read. *)
Fixpoint hex_value_from (acc : N) (s : string) : option N :=
  match s with
  | EmptyString => Some acc
  | String c s' =>
      match hex_digit_value c with
      | Some d => hex_value_from (acc * 16 + d) s'
      | None => None
      end
  end.

Definition hex_value (s : string) : option N := hex_value_from 0 s.

(** The unsigned integer whose base-256 digits are the bytes of [g],
    least significant first. *)
Fixpoint unsigned_le (g : list byte) : N :=
  match g with
  | [] => 0
  | b :: g' => Byte.to_N b + 256 * unsigned_le g'
  end.

(** The same with the most significant byte first. *)
Definition unsigned_be (g : list byte) : N := unsigned_le (rev g).

Definition unsigned_in (byteorder : string) (g : list byte) : N :=
  if String.eqb byteorder "big" then unsigned_be g else unsigned_le g.

(** A token is the hex form of [v] on [digits] digits. *)
Definition is_hex_token (digits : nat) (v : N) (tok : string) : Prop :=
  exists ds, tok = "0x" ++ ds /\ String.length ds = digits /\ hex_value ds = Some v.

(** The parameters of a call after its first argument: each one
    preceded by a comma and a space. *)
Definition comma_list (params : list string) : string :=
  fold_right (fun p acc => ", " ++ p ++ acc) "" params.

(** The characters that may stand in a description: a space, a digit or
    a lower-case letter. *)
Definition message_char (c : ascii) : bool :=
  let code := N_of_ascii c in
  ((code =? 32) || ((48 <=? code) && (code <=? 57))
                || ((97 <=? code) && (code <=? 122)))%N.

Fixpoint string_forallb (f : ascii -> bool) (s : string) : bool :=
  match s with
  | EmptyString => true
  | String c s' => f c && string_forallb f s'
  end.

(** * Properties *)

(** ** Strings *)

Lemma append_assoc (s1 s2 s3 : string) : (s1 ++ s2) ++ s3 = s1 ++ (s2 ++ s3).
Proof. induction s1 as [|c s1 IH]; cbn; [reflexivity | now rewrite IH]. Qed.

Lemma append_nil_r (s : string) : s ++ "" = s.
Proof. induction s as [|c s IH]; cbn; [reflexivity | now rewrite IH]. Qed.

(** [_join_params] puts [", "] before every parameter. *)
Lemma join_params_comma_list (p : list string) :
  _join_params p = comma_list p.
Proof.
  destruct p as [|s p]; [reflexivity|].
  cbn [_join_params comma_list fold_right]. do 2 f_equal.
  revert s. induction p as [|s' p IH]; intros s.
  - cbn. now rewrite append_nil_r.
  - change (join ", " (s :: s' :: p)) with (s ++ ", " ++ join ", " (s' :: p)).
    now rewrite IH.
Qed.

(** ** Enumeration look-up *)

Lemma DCSCommand_call_value (d : DCSCommand) :
  DCSCommand_call (DCSCommand_value d) = Return d.
Proof. destruct d; reflexivity. Qed.

Lemma DCSCommand_call_inv (v : N) (d : DCSCommand) :
  DCSCommand_call v = Return d -> DCSCommand_value d = v.
Proof.
  unfold DCSCommand_call.
  destruct (find _ DCSCommand_members) as [c|] eqn:E; [|discriminate].
  intros [= <-]. apply find_some in E. now apply N.eqb_eq.
Qed.

Lemma DCSCommand_call_raises (v : N) (e : exn) :
  DCSCommand_call v = Raise e -> e = ValueError.
Proof.
  unfold DCSCommand_call. destruct (find _ _); [discriminate|]. now intros [= <-].
Qed.

(** [find] on a non-empty payload, by the outcome of the look-up. *)
Lemma DCSCommand_find_known (p0 : byte) (args : list byte) (d : DCSCommand) :
  DCSCommand_call (Byte.to_N p0) = Return d ->
  DCSCommand_find (p0 :: args) =
    Return (if int_eq_opt (Z.of_nat (List.length args)) (DCSCommand_nargs d)
            then Some d else None).
Proof.
  intros H. unfold DCSCommand_find. rewrite H. cbn [bind catch_ValueError].
  replace (Z.of_nat (List.length (p0 :: args)) - 1)%Z
    with (Z.of_nat (List.length args)) by (cbn [List.length]; lia).
  reflexivity.
Qed.

Lemma DCSCommand_find_unknown (p0 : byte) (args : list byte) (e : exn) :
  DCSCommand_call (Byte.to_N p0) = Raise e ->
  DCSCommand_find (p0 :: args) = Return None.
Proof.
  intros H. unfold DCSCommand_find. rewrite H.
  apply DCSCommand_call_raises in H. now subst e.
Qed.

(** What a successful [find] says about its payload. *)
Lemma DCSCommand_find_Some (payload : list byte) (d : DCSCommand) :
  DCSCommand_find payload = Return (Some d) ->
  exists p0 args,
    payload = p0 :: args /\
    DCSCommand_value d = Byte.to_N p0 /\
    DCSCommand_nargs d = Some (Z.of_nat (List.length args)).
Proof.
  destruct payload as [|p0 args]; [discriminate|].
  destruct (DCSCommand_call (Byte.to_N p0)) as [c|e] eqn:E.
  - rewrite (DCSCommand_find_known _ _ _ E).
    destruct (DCSCommand_nargs c) as [n|] eqn:En; cbn [int_eq_opt]; [|discriminate].
    destruct (Z.eqb_spec (Z.of_nat (List.length args)) n); [|discriminate].
    intros [= <-]. exists p0, args. repeat split.
    + now apply DCSCommand_call_inv.
    + now subst n.
  - now rewrite (DCSCommand_find_unknown _ _ _ E).
Qed.

Lemma DCSCommand_method_truthy (d : DCSCommand) (m : string) :
  DCSCommand_method d = Some m -> truthy (Some m) = true.
Proof. destruct d; cbn; intros [= <-]; reflexivity. Qed.

(** ** Resolution: [DCSCommand.find] *)

(** C1, as the code has it: a payload whose opcode is a member defined
    without an argument count is never resolved, however many bytes
    follow the opcode, because [len(payload) - 1 == None] is false. *)
Theorem find_unspecified_arity_not_found
    (d : DCSCommand) (p0 : byte) (args : list byte) :
  DCSCommand_nargs d = None ->
  Byte.to_N p0 = DCSCommand_value d ->
  DCSCommand_find (p0 :: args) = Return None.
Proof.
  intros Hn Hv.
  rewrite (DCSCommand_find_known p0 args d).
  - now rewrite Hn.
  - rewrite Hv. apply DCSCommand_call_value.
Qed.

Lemma find_unspecified_arity_not_found_witness :
  DCSCommand_nargs WRITE_CONTROL_DISPLAY = None /\
  Byte.to_N x53 = DCSCommand_value WRITE_CONTROL_DISPLAY /\
  DCSCommand_find [x53; x24] = Return None.
Proof.
  split; [reflexivity|]. split; [reflexivity|].
  apply (find_unspecified_arity_not_found WRITE_CONTROL_DISPLAY x53 [x24]);
    reflexivity.
Defined.

(** C1 as stated fails: 0x53 is the opcode of [WRITE_CONTROL_DISPLAY],
    defined without an argument count, and the payload [53 24] is not
    resolved to any command. *)
Lemma find_unspecified_arity_counterexample :
  DCSCommand_call (Byte.to_N x53) = Return WRITE_CONTROL_DISPLAY /\
  DCSCommand_nargs WRITE_CONTROL_DISPLAY = None /\
  ~ (exists d, DCSCommand_find [x53; x24] = Return (Some d)).
Proof.
  split; [reflexivity|]. split; [reflexivity|].
  intros [d H]. vm_compute in H. discriminate H.
Qed.

(** C2: for a member with the fixed argument count [n], the payload made
    of its opcode and [n] further bytes resolves to that member, whose
    value is the opcode; a payload with the same opcode and [n] or
    [n + 2] bytes in all is not resolved. *)
Theorem find_fixed_arity
    (d : DCSCommand) (n : Z) (p0 : byte) (args : list byte) :
  DCSCommand_nargs d = Some n ->
  Byte.to_N p0 = DCSCommand_value d ->
  (Z.of_nat (List.length (p0 :: args)) = n + 1 ->
     DCSCommand_find (p0 :: args) = Return (Some d) /\
     DCSCommand_value d = Byte.to_N p0)%Z /\
  (Z.of_nat (List.length (p0 :: args)) = n \/
   Z.of_nat (List.length (p0 :: args)) = n + 2 ->
     DCSCommand_find (p0 :: args) = Return None)%Z.
Proof.
  intros Hn Hv.
  assert (Hc : DCSCommand_call (Byte.to_N p0) = Return d)
    by (rewrite Hv; apply DCSCommand_call_value).
  rewrite (DCSCommand_find_known p0 args d Hc), Hn. cbn [int_eq_opt List.length].
  split.
  - intros Hl. split; [|now symmetry].
    destruct (Z.eqb_spec (Z.of_nat (List.length args)) n); [reflexivity|lia].
  - intros Hl.
    destruct (Z.eqb_spec (Z.of_nat (List.length args)) n); [lia|reflexivity].
Qed.

Lemma find_fixed_arity_witness :
  DCSCommand_nargs SET_PIXEL_FORMAT = Some 1%Z /\
  Byte.to_N x3a = DCSCommand_value SET_PIXEL_FORMAT /\
  DCSCommand_find [x3a; x77] = Return (Some SET_PIXEL_FORMAT) /\
  DCSCommand_find [x3a] = Return None /\
  DCSCommand_find [x3a; x77; x00] = Return None.
Proof.
  split; [reflexivity|]. split; [reflexivity|].
  split; [|split].
  - apply (proj1 (find_fixed_arity SET_PIXEL_FORMAT 1 x3a [x77] eq_refl eq_refl)).
    reflexivity.
  - apply (proj2 (find_fixed_arity SET_PIXEL_FORMAT 1 x3a [] eq_refl eq_refl)).
    left. reflexivity.
  - apply (proj2 (find_fixed_arity SET_PIXEL_FORMAT 1 x3a [x77; x00] eq_refl eq_refl)).
    right. reflexivity.
Defined.

(** C4: an opcode that is no member and an opcode that is a member with
    another fixed argument count both make [find] return the same
    value, [None]; nothing in the result tells them apart. *)
Theorem find_failures_indistinguishable
    (p0 : byte) (args : list byte) (q0 : byte) (args' : list byte)
    (d : DCSCommand) (n : Z) :
  DCSCommand_call (Byte.to_N p0) = Raise ValueError ->
  DCSCommand_call (Byte.to_N q0) = Return d ->
  DCSCommand_nargs d = Some n ->
  Z.of_nat (List.length args') <> n ->
  DCSCommand_find (p0 :: args) = Return None /\
  DCSCommand_find (q0 :: args') = Return None /\
  DCSCommand_find (p0 :: args) = DCSCommand_find (q0 :: args').
Proof.
  intros Hp Hq Hn Hl.
  assert (H1 : DCSCommand_find (p0 :: args) = Return None)
    by exact (DCSCommand_find_unknown _ _ _ Hp).
  assert (H2 : DCSCommand_find (q0 :: args') = Return None).
  { rewrite (DCSCommand_find_known _ _ _ Hq), Hn. cbn [int_eq_opt].
    destruct (Z.eqb_spec (Z.of_nat (List.length args')) n);
      [contradiction|reflexivity]. }
  now rewrite H1, H2.
Qed.

Lemma find_failures_indistinguishable_witness :
  DCSCommand_call (Byte.to_N xff) = Raise ValueError /\
  DCSCommand_call (Byte.to_N x29) = Return SET_DISPLAY_ON /\
  DCSCommand_find [xff; x00] = Return None /\
  DCSCommand_find [x29; x00] = Return None /\
  DCSCommand_find [xff; x00] = DCSCommand_find [x29; x00].
Proof.
  split; [reflexivity|]. split; [reflexivity|].
  apply (find_failures_indistinguishable xff [x00] x29 [x00] SET_DISPLAY_ON 0);
    [reflexivity | reflexivity | reflexivity | cbn; lia].
Defined.

(** ** The tear-mode codec: [TearMode.get_params] *)

(** C8: on the single byte 0 the codec yields the identifier of
    [VBLANK], on 1 that of [VHBLANK]; on 2, and on every other byte
    outside {0, 1}, it raises [ValueError] and yields no token. *)
Theorem TearMode_get_params_single (b : byte) :
  b <> x00 -> b <> x01 ->
  TearMode_get_params [x00] = Return ["MIPI_DSI_DCS_TEAR_MODE_VBLANK"] /\
  TearMode_get_params [x01] = Return ["MIPI_DSI_DCS_TEAR_MODE_VHBLANK"] /\
  TearMode_get_params [x02] = Raise ValueError /\
  TearMode_get_params [b] = Raise ValueError.
Proof.
  intros H0 H1. repeat (split; [reflexivity|]).
  destruct b; first [reflexivity | congruence].
Qed.

Lemma TearMode_get_params_single_witness :
  x7f <> x00 /\ x7f <> x01 /\
  TearMode_get_params [x7f] = Raise ValueError.
Proof.
  split; [discriminate|]. split; [discriminate|].
  apply (TearMode_get_params_single x7f); discriminate.
Defined.

(** ** Rendering: peripheral transactions *)

Lemma Transaction_beq_refl (t : Transaction) : Transaction_beq t t = true.
Proof. destruct t; reflexivity. Qed.

Lemma Transaction_beq_neq (t u : Transaction) :
  t <> u -> Transaction_beq t u = false.
Proof.
  intros H. destruct (Transaction_beq t u) eqn:E; [|reflexivity].
  destruct t, u; first [discriminate E | now elim H].
Qed.

(** C9: the transaction of opcode 0x22 is [SHUTDOWN_PERIPHERAL]; with no
    payload byte it renders as the error-checked call of
    [mipi_dsi_shutdown_peripheral(dsi)] with no further argument: the
    result is assigned to [ret], and a negative [ret] is logged and
    returned to the caller. With one payload byte, and with any payload,
    it renders the very same text: the payload is never looked at.
    [_generate_peripheral] on a transaction other than the two
    peripheral ones raises [ValueError]. *)
Theorem generate_peripheral_ignores_payload
    (t : Transaction) (payload : list byte) (b : byte) :
  t <> TURN_ON_PERIPHERAL -> t <> SHUTDOWN_PERIPHERAL ->
  Transaction_call 0x22 = Return SHUTDOWN_PERIPHERAL /\
  Transaction_generate SHUTDOWN_PERIPHERAL [] =
    Return (tab ++ "ret = mipi_dsi_shutdown_peripheral(dsi);" ++ nl ++
            tab ++ "if (ret < 0) {" ++ nl ++
            tab ++ tab ++ "dev_err(dev, " ++ dquote
                ++ "Failed to shutdown peripheral: %d\n" ++ dquote
                ++ ", ret);" ++ nl ++
            tab ++ tab ++ "return ret;" ++ nl ++
            tab ++ "}") /\
  Transaction_generate SHUTDOWN_PERIPHERAL [b] =
    Transaction_generate SHUTDOWN_PERIPHERAL [] /\
  Transaction_generate SHUTDOWN_PERIPHERAL payload =
    Transaction_generate SHUTDOWN_PERIPHERAL [] /\
  Transaction_generate TURN_ON_PERIPHERAL payload =
    Return (tab ++ "ret = mipi_dsi_turn_on_peripheral(dsi);" ++ nl ++
            tab ++ "if (ret < 0) {" ++ nl ++
            tab ++ tab ++ "dev_err(dev, " ++ dquote
                ++ "Failed to turn on peripheral: %d\n" ++ dquote
                ++ ", ret);" ++ nl ++
            tab ++ tab ++ "return ret;" ++ nl ++
            tab ++ "}") /\
  _generate_peripheral t payload = Raise ValueError.
Proof.
  intros Hon Hoff. repeat (split; [reflexivity|]).
  unfold _generate_peripheral.
  now rewrite (Transaction_beq_neq _ _ Hon), (Transaction_beq_neq _ _ Hoff).
Qed.

Lemma generate_peripheral_ignores_payload_witness :
  DCS_READ <> TURN_ON_PERIPHERAL /\ DCS_READ <> SHUTDOWN_PERIPHERAL /\
  Transaction_generate SHUTDOWN_PERIPHERAL [x01] =
    Return (tab ++ "ret = mipi_dsi_shutdown_peripheral(dsi);" ++ nl ++
            tab ++ "if (ret < 0) {" ++ nl ++
            tab ++ tab ++ "dev_err(dev, " ++ dquote
                ++ "Failed to shutdown peripheral: %d\n" ++ dquote
                ++ ", ret);" ++ nl ++
            tab ++ tab ++ "return ret;" ++ nl ++
            tab ++ "}") /\
  _generate_peripheral DCS_READ [x01] = Raise ValueError.
Proof.
  split; [discriminate|]. split; [discriminate|].
  pose proof (generate_peripheral_ignores_payload DCS_READ [x01] x01) as H.
  destruct H as (_ & H0 & H1 & _ & _ & H2); [discriminate | discriminate |].
  split; [now rewrite H1 | exact H2].
Defined.

(** ** Rendering: command-set writes *)

(** The transactions whose generator is [_generate_dcs_write]. *)
Lemma dcs_write_transactions (t : Transaction) (payload : list byte) :
  t = DCS_SHORT_WRITE \/ t = DCS_SHORT_WRITE_PARAM \/ t = DCS_LONG_WRITE ->
  Transaction_generate t payload = _generate_dcs_write t payload.
Proof. intros [-> | [-> | ->]]; reflexivity. Qed.

Lemma generate_dcs_write_bound
    (t : Transaction) (payload : list byte) (d : DCSCommand) (m : string) :
  DCSCommand_find payload = Return (Some d) ->
  DCSCommand_method d = Some m ->
  _generate_dcs_write t payload =
    (params <- DCSCommand_get_params d (tl payload) ;;
     Return (_check_ret (m ++ "(dsi" ++ _join_params params ++ ")")
                        (DCSCommand_description d))).
Proof.
  intros Hf Hm. unfold _generate_dcs_write. rewrite Hf. cbn [bind].
  rewrite Hm. now rewrite (DCSCommand_method_truthy d m Hm).
Qed.

(** C5: the payload made of the single byte 0x34 resolves to
    [SET_TEAR_OFF] (argument count 0, bound call present); its codec is
    [TearMode.get_params], applied to the empty rest of the payload,
    where [b[0]] raises [IndexError]: the render returns no text. *)
Theorem generate_tear_off_raises (t : Transaction) :
  DCSCommand_find [x34] = Return (Some SET_TEAR_OFF) /\
  DCSCommand_nargs SET_TEAR_OFF = Some 0%Z /\
  DCSCommand_method SET_TEAR_OFF = Some "mipi_dsi_dcs_set_tear_off" /\
  DCSCommand_get_params SET_TEAR_OFF (tl [x34]) = TearMode_get_params [] /\
  TearMode_get_params [] = Raise IndexError /\
  _generate_dcs_write t [x34] = Raise IndexError /\
  Transaction_generate DCS_SHORT_WRITE [x34] = Raise IndexError /\
  Transaction_generate DCS_SHORT_WRITE_PARAM [x34] = Raise IndexError /\
  Transaction_generate DCS_LONG_WRITE [x34] = Raise IndexError.
Proof. repeat (split; [reflexivity|]). reflexivity. Qed.

(** C3, as the code has it: when the payload of a command-set write
    resolves to a member with a bound call, the render is never a
    raw-bytes write; when moreover the member's codec yields parameters
    for the bytes after the opcode, the render is the error-checked
    call of the bound identifier on [dsi] and these parameters: the
    result is assigned to [ret], and a negative [ret] is logged with
    the member's description and returned. When the tear-mode codec
    rejects the byte, as for [35 02], the render raises [ValueError].
    The write 0x15 with the one byte 0x29 renders as the error-checked
    call of [mipi_dsi_dcs_set_display_on(dsi)], with no parameter. *)
Theorem generate_dcs_write_prefers_bound_call
    (t : Transaction) (payload : list byte) (d : DCSCommand) (m : string) :
  t = DCS_SHORT_WRITE \/ t = DCS_SHORT_WRITE_PARAM \/ t = DCS_LONG_WRITE ->
  DCSCommand_find payload = Return (Some d) ->
  DCSCommand_method d = Some m ->
  (forall params : list string,
     DCSCommand_get_params d (tl payload) = Return params ->
     Transaction_generate t payload =
       Return (tab ++ "ret = " ++ m ++ "(dsi" ++ comma_list params ++ ");" ++ nl ++
               tab ++ "if (ret < 0) {" ++ nl ++
               tab ++ tab ++ "dev_err(dev, " ++ dquote
                   ++ "Failed to " ++ DCSCommand_description d ++ ": %d\n" ++ dquote
                   ++ ", ret);" ++ nl ++
               tab ++ tab ++ "return ret;" ++ nl ++
               tab ++ "}")) /\
  (forall rest : string,
     Transaction_generate t payload <>
       Return (tab ++ "dsi_dcs_write_seq(" ++ rest)) /\
  (forall b : byte,
     b <> x00 -> b <> x01 ->
     DCSCommand_find [x35; b] = Return (Some SET_TEAR_ON) /\
     Transaction_generate t [x35; b] = Raise ValueError) /\
  Transaction_call 0x15 = Return DCS_SHORT_WRITE_PARAM /\
  DCSCommand_find [x29] = Return (Some SET_DISPLAY_ON) /\
  Transaction_generate DCS_SHORT_WRITE_PARAM [x29] =
    Return (tab ++ "ret = mipi_dsi_dcs_set_display_on(dsi);" ++ nl ++
            tab ++ "if (ret < 0) {" ++ nl ++
            tab ++ tab ++ "dev_err(dev, " ++ dquote
                ++ "Failed to set display on: %d\n" ++ dquote
                ++ ", ret);" ++ nl ++
            tab ++ tab ++ "return ret;" ++ nl ++
            tab ++ "}").
Proof.
  intros Ht Hf Hm.
  assert (E : Transaction_generate t payload =
              (params <- DCSCommand_get_params d (tl payload) ;;
               Return (_check_ret (m ++ "(dsi" ++ _join_params params ++ ")")
                                  (DCSCommand_description d)))).
  { rewrite (dcs_write_transactions t payload Ht).
    exact (generate_dcs_write_bound t payload d m Hf Hm). }
  split; [|split; [|split; [|repeat split]]].
  - intros params Hp. rewrite E, Hp. cbn [bind]. unfold _check_ret.
    rewrite join_params_comma_list, !append_assoc. reflexivity.
  - intros rest. rewrite E.
    destruct (DCSCommand_get_params d (tl payload)) as [params|e];
      cbn [bind]; [|discriminate].
    unfold _check_ret, tab. cbn [append]. intros H. discriminate H.
  - intros b H0 H1.
    assert (Hfb : DCSCommand_find [x35; b] = Return (Some SET_TEAR_ON))
      by exact (DCSCommand_find_known x35 [b] SET_TEAR_ON eq_refl).
    split; [exact Hfb|].
    rewrite (dcs_write_transactions t [x35; b] Ht).
    rewrite (generate_dcs_write_bound t [x35; b] SET_TEAR_ON _ Hfb eq_refl).
    cbn [tl DCSCommand_get_params TearMode_get_params].
    destruct b; first [reflexivity | congruence].
Qed.

Lemma generate_dcs_write_prefers_bound_call_witness :
  DCSCommand_find [x3a; x77] = Return (Some SET_PIXEL_FORMAT) /\
  DCSCommand_method SET_PIXEL_FORMAT = Some "mipi_dsi_dcs_set_pixel_format" /\
  DCSCommand_get_params SET_PIXEL_FORMAT (tl [x3a; x77]) = Return ["0x77"] /\
  Transaction_generate DCS_SHORT_WRITE_PARAM [x3a; x77] =
    Return (tab ++ "ret = mipi_dsi_dcs_set_pixel_format(dsi, 0x77);" ++ nl ++
            tab ++ "if (ret < 0) {" ++ nl ++
            tab ++ tab ++ "dev_err(dev, " ++ dquote
                ++ "Failed to set pixel format: %d\n" ++ dquote
                ++ ", ret);" ++ nl ++
            tab ++ tab ++ "return ret;" ++ nl ++
            tab ++ "}") /\
  Transaction_generate DCS_SHORT_WRITE_PARAM [x35; x02] = Raise ValueError.
Proof.
  split; [reflexivity|]. split; [reflexivity|]. split; [reflexivity|].
  pose proof (generate_dcs_write_prefers_bound_call
                DCS_SHORT_WRITE_PARAM [x3a; x77] SET_PIXEL_FORMAT
                "mipi_dsi_dcs_set_pixel_format"
                (or_intror (or_introl eq_refl)) eq_refl eq_refl)
    as (Hcall & _ & Htear & _).
  split.
  - exact (Hcall ["0x77"] eq_refl).
  - apply (Htear x02); discriminate.
Defined.

(** C3 as stated fails: the payload [35 02] resolves to [SET_TEAR_ON],
    which has a bound call, yet the render emits nothing: the tear-mode
    codec rejects the byte 2 and the render raises [ValueError]. *)
Lemma generate_dcs_write_bound_call_counterexample :
  DCSCommand_find [x35; x02] = Return (Some SET_TEAR_ON) /\
  DCSCommand_method SET_TEAR_ON = Some "mipi_dsi_dcs_set_tear_on" /\
  ~ (exists out, Transaction_generate DCS_LONG_WRITE [x35; x02] = Return out).
Proof.
  split; [reflexivity|]. split; [reflexivity|].
  intros [out H]. vm_compute in H. discriminate H.
Qed.

(** What the code does on the raw-bytes path: when the payload
    resolves to a member without a bound call, the write carries
    [dcs.name] in the place of the first hex token, the other tokens
    being the hex bytes; when the payload does not resolve, the write
    carries the hex bytes of the whole payload. *)
Lemma generate_dcs_write_raw (t : Transaction) (payload : list byte) :
  t = DCS_SHORT_WRITE \/ t = DCS_SHORT_WRITE_PARAM \/ t = DCS_LONG_WRITE ->
  (forall d : DCSCommand,
     DCSCommand_find payload = Return (Some d) ->
     DCSCommand_method d = None ->
     Transaction_generate t payload =
       Return (tab ++ "dsi_dcs_write_seq(dsi"
                   ++ _join_params (DCSCommand_name d :: tl (_get_params_hex payload))
                   ++ ");") /\
     DCSCommand_name d <> DCSCommand_identifier d) /\
  (DCSCommand_find payload = Return None ->
     Transaction_generate t payload =
       Return (tab ++ "dsi_dcs_write_seq(dsi"
                   ++ _join_params (_get_params_hex payload) ++ ");")).
Proof.
  intros Ht. rewrite (dcs_write_transactions t payload Ht).
  unfold _generate_dcs_write. split.
  - intros d Hf Hm. rewrite Hf. cbn [bind]. rewrite Hm. split.
    + destruct (DCSCommand_find_Some payload d Hf) as (p0 & args & -> & _).
      reflexivity.
    + destruct d; discriminate.
  - intros Hf. rewrite Hf. reflexivity.
Qed.

Lemma generate_dcs_write_raw_witness :
  DCSCommand_find [x36; x00] = Return (Some SET_ADDRESS_MODE) /\
  DCSCommand_method SET_ADDRESS_MODE = None /\
  Transaction_generate DCS_SHORT_WRITE_PARAM [x36; x00] =
    Return (tab ++ "dsi_dcs_write_seq(dsi, SET_ADDRESS_MODE, 0x00);") /\
  DCSCommand_find [xb0; x02] = Return None /\
  Transaction_generate DCS_SHORT_WRITE_PARAM [xb0; x02] =
    Return (tab ++ "dsi_dcs_write_seq(dsi, 0xb0, 0x02);").
Proof.
  split; [reflexivity|]. split; [reflexivity|]. split; [|split; [reflexivity|]].
  - apply (proj1 (generate_dcs_write_raw DCS_SHORT_WRITE_PARAM [x36; x00]
                    (or_intror (or_introl eq_refl)))
                 SET_ADDRESS_MODE eq_refl eq_refl).
  - apply (proj2 (generate_dcs_write_raw DCS_SHORT_WRITE_PARAM [xb0; x02]
                    (or_intror (or_introl eq_refl)))
                 eq_refl).
Defined.

(** C6, the code at the payload [12]: it resolves to
    [ENTER_PARTIAL_MODE], which has no bound call and whose identifier
    is [MIPI_DCS_ENTER_PARTIAL_MODE]; the raw-bytes write that the code
    emits carries the bare member name [ENTER_PARTIAL_MODE] as its
    first token, not that identifier. *)
Theorem generate_dcs_write_raw_emits_name :
  DCSCommand_find [x12] = Return (Some ENTER_PARTIAL_MODE) /\
  DCSCommand_method ENTER_PARTIAL_MODE = None /\
  DCSCommand_identifier ENTER_PARTIAL_MODE = "MIPI_DCS_ENTER_PARTIAL_MODE" /\
  Transaction_generate DCS_SHORT_WRITE [x12] =
    Return (tab ++ "dsi_dcs_write_seq(dsi, ENTER_PARTIAL_MODE);") /\
  Transaction_generate DCS_SHORT_WRITE [x12] <>
    Return (tab ++ "dsi_dcs_write_seq(dsi, MIPI_DCS_ENTER_PARTIAL_MODE);").
Proof.
  repeat (split; [reflexivity|]). vm_compute. intros H. discriminate H.
Qed.

(** ** The codecs: hex formatting *)

Lemma length_append (s1 s2 : string) :
  String.length (s1 ++ s2) = String.length s1 + String.length s2.
Proof. induction s1 as [|c s1 IH]; cbn; [reflexivity | now rewrite IH]. Qed.

Lemma length_zeros (k : nat) : String.length (zeros k) = k.
Proof. induction k as [|k IH]; cbn; [reflexivity | now rewrite IH]. Qed.

Lemma hex_digit_value_digit (d : N) :
  (d < 16)%N -> hex_digit_value (hex_digit d) = Some d.
Proof.
  intros H. destruct d as [|p]; [reflexivity|].
  do 4 (destruct p as [p|p|]; try reflexivity); lia.
Qed.

Lemma hex_value_from_app (s1 s2 : string) (a : N) :
  hex_value_from a (s1 ++ s2) =
    match hex_value_from a s1 with
    | Some a' => hex_value_from a' s2
    | None => None
    end.
Proof.
  revert a. induction s1 as [|c s1 IH]; intros a; cbn; [reflexivity|].
  destruct (hex_digit_value c); [apply IH | reflexivity].
Qed.

Lemma hex_value_zeros (k : nat) (s : string) :
  hex_value (zeros k ++ s) = hex_value s.
Proof.
  unfold hex_value. induction k as [|k IH]; cbn; [reflexivity | exact IH].
Qed.

Lemma hex_digits_aux_acc (fuel : nat) (n : N) (acc : string) :
  hex_digits_aux fuel n acc = hex_digits_aux fuel n "" ++ acc.
Proof.
  revert n acc. induction fuel as [|fuel IH]; intros n acc; cbn; [reflexivity|].
  destruct (n / 16 =? 0)%N; [reflexivity|].
  rewrite (IH _ (String _ acc)), (IH _ (String _ "")).
  now rewrite append_assoc.
Qed.

(** With enough fuel the digits produced denote [n]. *)
Lemma hex_value_digits_aux (fuel : nat) (n : N) :
  (n < 16 ^ N.of_nat fuel)%N -> 0 < fuel ->
  hex_value (hex_digits_aux fuel n "") = Some n.
Proof.
  unfold hex_value. revert n.
  induction fuel as [|fuel IH]; intros n Hn Hf; [lia|]. cbn [hex_digits_aux].
  assert (Hd : (n mod 16 < 16)%N) by (apply N.mod_lt; lia).
  pose proof (N.div_mod n 16 ltac:(lia)) as Hdm.
  destruct (N.eqb_spec (n / 16) 0) as [E|E].
  - cbn. rewrite (hex_digit_value_digit _ Hd). f_equal. lia.
  - rewrite hex_digits_aux_acc, hex_value_from_app.
    assert (Hq : (n / 16 < 16 ^ N.of_nat fuel)%N).
    { apply N.Div0.div_lt_upper_bound.
      replace (N.of_nat (S fuel)) with (N.succ (N.of_nat fuel)) in Hn by lia.
      now rewrite N.pow_succ_r' in Hn. }
    assert (Hf' : 0 < fuel).
    { destruct fuel; [|lia]. cbn in Hq. apply N.lt_1_r in Hq. contradiction. }
    rewrite (IH _ Hq Hf'). cbn. rewrite (hex_digit_value_digit _ Hd).
    f_equal. lia.
Qed.

(** A number below [16 ^ k] has at most [k] digits. *)
Lemma length_hex_digits_aux (fuel : nat) (n : N) (k : nat) :
  (n < 16 ^ N.of_nat k)%N -> 0 < k ->
  String.length (hex_digits_aux fuel n "") <= k.
Proof.
  revert n k. induction fuel as [|fuel IH]; intros n k Hn Hk;
    cbn [hex_digits_aux]; [cbn; lia|].
  destruct (N.eqb_spec (n / 16) 0) as [E|E]; [cbn; lia|].
  rewrite hex_digits_aux_acc, length_append. cbn [String.length].
  destruct k as [|k]; [lia|].
  assert (Hq : (n / 16 < 16 ^ N.of_nat k)%N).
  { apply N.Div0.div_lt_upper_bound.
    replace (N.of_nat (S k)) with (N.succ (N.of_nat k)) in Hn by lia.
    now rewrite N.pow_succ_r' in Hn. }
  assert (Hk' : 0 < k).
  { destruct k; [|lia]. cbn in Hq. apply N.lt_1_r in Hq. contradiction. }
  specialize (IH _ _ Hq Hk'). lia.
Qed.

Lemma hex_digits_fuel (n : N) :
  (n < 16 ^ N.of_nat (S (N.to_nat (N.size n))))%N.
Proof.
  pose proof (N.size_gt n) as H.
  replace (N.of_nat (S (N.to_nat (N.size n)))) with (N.succ (N.size n)) by lia.
  rewrite N.pow_succ_r'.
  assert (2 ^ N.size n <= 16 ^ N.size n)%N by (apply N.pow_le_mono_l; lia).
  lia.
Qed.

(** [_hex_fill i size] on a value that fits in [size] bytes: [0x] and
    exactly [2 * size] digits that denote [i]. *)
Lemma hex_fill_token (i : N) (size : nat) :
  0 < size -> (i < 256 ^ N.of_nat size)%N ->
  is_hex_token (2 * size) i (_hex_fill i size).
Proof.
  intros Hs Hi. unfold _hex_fill, format_hex, is_hex_token, hex_digits.
  set (ds := hex_digits_aux _ i "").
  assert (Hl : String.length ds <= 2 * size).
  { apply length_hex_digits_aux; [|lia].
    replace (N.of_nat (2 * size)) with (2 * N.of_nat size)%N by lia.
    rewrite N.pow_mul_r. exact Hi. }
  exists (zeros (size * 2 + 2 - 2 - String.length ds) ++ ds).
  split; [reflexivity|]. split.
  - rewrite length_append, length_zeros. lia.
  - rewrite hex_value_zeros. apply hex_value_digits_aux; [|lia].
    apply hex_digits_fuel.
Qed.

(** ** The codecs: grouping *)

Lemma next_tuple_app (g rest : list byte) :
  next_tuple (List.length g) (g ++ rest)%list = Some (g, rest).
Proof.
  induction g as [|x g IH]; cbn; [reflexivity | now rewrite IH].
Qed.

Lemma next_tuple_short (size : nat) (r : list byte) :
  List.length r < size -> next_tuple size r = None.
Proof.
  revert r. induction size as [|size IH]; intros r H; [lia|].
  destruct r as [|x r]; cbn; [reflexivity|].
  cbn in H. rewrite IH by lia. reflexivity.
Qed.

Lemma length_concat_groups (W : nat) (gs : list (list byte)) :
  Forall (fun g => List.length g = W) gs ->
  List.length (List.concat gs) = W * List.length gs.
Proof.
  induction 1 as [|g gs Hg _ IH]; cbn; [lia|].
  rewrite List.length_app, IH, Hg. lia.
Qed.

(** The rounds of [zip] give back the groups, and drop an incomplete
    last one. *)
Lemma zip_shared_aux_concat (W : nat) (gs : list (list byte)) (r : list byte) :
  Forall (fun g => List.length g = W) gs ->
  List.length r < W ->
  forall fuel, List.length gs <= fuel ->
  zip_shared_aux fuel W (List.concat gs ++ r)%list = gs.
Proof.
  intros Hgs Hr. induction Hgs as [|g gs Hg _ IH]; intros fuel Hf.
  - destruct fuel; cbn; [reflexivity|]. now rewrite next_tuple_short.
  - destruct fuel as [|fuel]; [cbn in Hf; lia|].
    cbn [List.concat zip_shared_aux]. rewrite <- List.app_assoc.
    rewrite <- Hg at 1. rewrite next_tuple_app.
    rewrite IH by (cbn in Hf; lia). reflexivity.
Qed.

Lemma zip_shared_concat (W : nat) (gs : list (list byte)) (r : list byte) :
  0 < W ->
  Forall (fun g => List.length g = W) gs ->
  List.length r < W ->
  zip_shared W (List.concat gs ++ r)%list = gs.
Proof.
  intros HW Hgs Hr. unfold zip_shared. destruct W as [|W']; [lia|].
  apply zip_shared_aux_concat; [assumption | assumption |].
  rewrite List.length_app, (length_concat_groups _ _ Hgs). nia.
Qed.

(** Every byte sequence is a run of [W]-byte groups followed by fewer
    than [W] bytes. *)
Lemma groups_exist (W : nat) (b : list byte) :
  0 < W ->
  exists gs r,
    b = (List.concat gs ++ r)%list /\
    Forall (fun g => List.length g = W) gs /\
    List.length r < W.
Proof.
  intros HW. remember (List.length b) as n eqn:Hn. revert b Hn.
  induction n as [n IH] using (well_founded_induction Wf_nat.lt_wf).
  intros b Hn. destruct (Nat.lt_ge_cases (List.length b) W) as [Hlt|Hge].
  - exists [], b. cbn. repeat split; [constructor | assumption].
  - assert (Hl : List.length (skipn W b) < n)
      by (rewrite List.length_skipn; lia).
    destruct (IH _ Hl (skipn W b) eq_refl) as (gs & r & E & Hgs & Hr).
    exists (firstn W b :: gs), r. repeat split; [|constructor|]; try assumption.
    + cbn [List.concat]. rewrite <- List.app_assoc, <- E. symmetry. apply firstn_skipn.
    + apply List.firstn_length_le. exact Hge.
Qed.

Lemma firstn_length_app (l r : list byte) :
  firstn (List.length l) (l ++ r)%list = l.
Proof. induction l as [|x l IH]; cbn; [reflexivity | now rewrite IH]. Qed.

(** ** The codecs: unsigned values *)

Lemma from_bytes_big_snoc (t : list byte) (b : byte) :
  from_bytes_big (t ++ [b])%list = (from_bytes_big t * 256 + Byte.to_N b)%N.
Proof. unfold from_bytes_big. now rewrite fold_left_app. Qed.

Lemma from_bytes_big_unsigned_be (t : list byte) :
  from_bytes_big t = unsigned_be t.
Proof.
  unfold unsigned_be. induction t as [|b t IH] using rev_ind; [reflexivity|].
  rewrite from_bytes_big_snoc, rev_app_distr, IH.
  change (rev [b] ++ rev t)%list with (b :: rev t).
  cbn [unsigned_le]. lia.
Qed.

Lemma int_from_bytes_unsigned (t : list byte) (byteorder : string) :
  byteorder = "big" \/ byteorder = "little" ->
  int_from_bytes t byteorder = Return (unsigned_in byteorder t).
Proof.
  intros [-> | ->]; unfold int_from_bytes, unsigned_in; cbn [String.eqb];
    cbn -[from_bytes_big unsigned_be unsigned_le].
  - now rewrite from_bytes_big_unsigned_be.
  - rewrite from_bytes_big_unsigned_be. unfold unsigned_be.
    now rewrite rev_involutive.
Qed.

Lemma unsigned_le_bound (g : list byte) :
  (unsigned_le g < 256 ^ N.of_nat (List.length g))%N.
Proof.
  induction g as [|b g IH]; [cbn; lia|].
  cbn [unsigned_le List.length].
  replace (N.of_nat (S (List.length g))) with (N.succ (N.of_nat (List.length g)))
    by lia.
  rewrite N.pow_succ_r'. pose proof (Byte.to_N_bounded b). lia.
Qed.

Lemma unsigned_in_bound (byteorder : string) (g : list byte) :
  (unsigned_in byteorder g < 256 ^ N.of_nat (List.length g))%N.
Proof.
  unfold unsigned_in, unsigned_be. destruct (String.eqb byteorder "big").
  - rewrite <- (List.length_rev g). apply unsigned_le_bound.
  - apply unsigned_le_bound.
Qed.

Lemma mapM_Return {A B : Type} (f : A -> result B) (g : A -> B) (l : list A) :
  (forall x, f x = Return (g x)) -> mapM f l = Return (map g l).
Proof.
  intros H. induction l as [|x l IH]; cbn; [reflexivity|].
  now rewrite H, IH.
Qed.

(** The codec on a run of groups followed by an incomplete one. *)
Lemma get_params_int_groups
    (W : nat) (byteorder : string) (gs : list (list byte)) (r : list byte) :
  0 < W ->
  byteorder = "big" \/ byteorder = "little" ->
  Forall (fun g => List.length g = W) gs ->
  List.length r < W ->
  _get_params_int W byteorder (List.concat gs ++ r)%list =
    Return (map (fun g => _hex_fill (unsigned_in byteorder g) W) gs).
Proof.
  intros HW Hbo Hgs Hr. unfold _get_params_int.
  rewrite (zip_shared_concat W gs r HW Hgs Hr).
  apply mapM_Return. intros t.
  now rewrite (int_from_bytes_unsigned t byteorder Hbo).
Qed.

Lemma tokens_of_groups (W : nat) (byteorder : string) (gs : list (list byte)) :
  0 < W ->
  Forall (fun g => List.length g = W) gs ->
  Forall2 (fun g tok => is_hex_token (2 * W) (unsigned_in byteorder g) tok)
          gs (map (fun g => _hex_fill (unsigned_in byteorder g) W) gs).
Proof.
  intros HW. induction 1 as [|g gs Hg _ IH]; cbn [map]; constructor; [|exact IH].
  apply hex_fill_token; [exact HW|].
  rewrite <- Hg. apply unsigned_in_bound.
Qed.

(** ** The fixed-width integer codec: [_get_params_int] *)

(** C7: on an input whose length is a multiple of the width [W], the
    codec splits the input into consecutive groups of [W] bytes and
    yields one token per group, in order: [0x] followed by exactly
    [2 * W] hex digits that denote the unsigned value of the group in
    the configured byte order. The big-endian codec of width 2 maps
    [01 2c] to [0x012c], and so does the little-endian one on
    [2c 01]. *)
Theorem get_params_int_aligned
    (W k : nat) (byteorder : string) (b : list byte) :
  byteorder = "big" \/ byteorder = "little" ->
  List.length b = k * W ->
  (exists groups tokens,
     b = List.concat groups /\
     Forall (fun g => List.length g = W) groups /\
     _get_params_int W byteorder b = Return tokens /\
     Forall2 (fun g tok => is_hex_token (2 * W) (unsigned_in byteorder g) tok)
             groups tokens) /\
  _get_params_int 2 "big" [x01; x2c] = Return ["0x012c"] /\
  _get_params_int 2 "little" [x2c; x01] = Return ["0x012c"].
Proof.
  intros Hbo Hlen. split; [|split; reflexivity].
  destruct W as [|W'].
  - assert (b = []) by (destruct b; [reflexivity | cbn in Hlen; lia]). subst b.
    exists [], []. repeat split; constructor.
  - set (W := S W') in *. assert (HW : 0 < W) by (unfold W; lia).
    destruct (groups_exist W b HW) as (gs & r & E & Hgs & Hr).
    assert (r = []).
    { apply (f_equal (@List.length byte)) in E.
      rewrite List.length_app, (length_concat_groups _ _ Hgs), Hlen in E.
      destruct r as [|x r]; [reflexivity|]. exfalso. cbn [List.length] in *.
      assert (k = List.length gs) by nia. nia. }
    subst r. exists gs, (map (fun g => _hex_fill (unsigned_in byteorder g) W) gs).
    split; [now rewrite E, List.app_nil_r|]. split; [exact Hgs|]. split.
    + rewrite E. now apply get_params_int_groups.
    + now apply tokens_of_groups.
Qed.

Lemma get_params_int_aligned_witness :
  List.length [x00; x01; x02; x03] = 2 * 2 /\
  exists groups tokens,
    [x00; x01; x02; x03] = List.concat groups /\
    Forall (fun g => List.length g = 2) groups /\
    _get_params_int 2 "big" [x00; x01; x02; x03] = Return tokens /\
    Forall2 (fun g tok => is_hex_token (2 * 2) (unsigned_in "big" g) tok)
            groups tokens.
Proof.
  split; [reflexivity|].
  exact (proj1 (get_params_int_aligned 2 2 "big" [x00; x01; x02; x03]
                  (or_introl eq_refl) eq_refl)).
Defined.

(** C10: on an input whose length is not a multiple of the width [W],
    the codec raises nothing: it returns [length b / W] tokens, the very
    tokens it returns on the input cut down to its first
    [W * (length b / W)] bytes; the bytes after these, at least one and
    fewer than [W], have no part in the result. *)
Theorem get_params_int_misaligned
    (W : nat) (byteorder : string) (b : list byte) :
  0 < W ->
  byteorder = "big" \/ byteorder = "little" ->
  List.length b mod W <> 0 ->
  exists tokens,
    _get_params_int W byteorder b = Return tokens /\
    List.length tokens = List.length b / W /\
    _get_params_int W byteorder (firstn (W * (List.length b / W)) b) =
      Return tokens /\
    0 < List.length (skipn (W * (List.length b / W)) b) < W.
Proof.
  intros HW Hbo Hmod.
  destruct (groups_exist W b HW) as (gs & r & E & Hgs & Hr).
  assert (Hq : List.length gs = List.length b / W).
  { apply (Nat.div_unique _ _ _ (List.length r)); [exact Hr|].
    rewrite E, List.length_app, (length_concat_groups _ _ Hgs). reflexivity. }
  exists (map (fun g => _hex_fill (unsigned_in byteorder g) W) gs).
  split; [|split; [|split]].
  - rewrite E. now apply get_params_int_groups.
  - now rewrite List.length_map.
  - rewrite <- Hq, <- (length_concat_groups _ _ Hgs), E, firstn_length_app.
    rewrite <- (List.app_nil_r (List.concat gs)).
    apply get_params_int_groups; [assumption | assumption | assumption |].
    cbn. exact HW.
  - rewrite List.length_skipn.
    pose proof (Nat.div_mod_eq (List.length b) W) as Hdm.
    pose proof (Nat.mod_upper_bound (List.length b) W ltac:(lia)) as Hub.
    lia.
Qed.

Lemma get_params_int_misaligned_witness :
  0 < 2 /\ List.length [x2c; x01; x05] mod 2 <> 0 /\
  exists tokens,
    _get_params_int 2 "little" [x2c; x01; x05] = Return tokens /\
    List.length tokens = List.length [x2c; x01; x05] / 2 /\
    _get_params_int 2 "little"
      (firstn (2 * (List.length [x2c; x01; x05] / 2)) [x2c; x01; x05]) =
      Return tokens /\
    0 < List.length (skipn (2 * (List.length [x2c; x01; x05] / 2))
                           [x2c; x01; x05]) < 2.
Proof.
  split; [lia|]. split; [cbn; lia|].
  apply (get_params_int_misaligned 2 "little" [x2c; x01; x05]);
    [lia | right; reflexivity | cbn; lia].
Defined.

(** * Further properties of the codecs *)

Lemma append_inv_head (s a b : string) : s ++ a = s ++ b -> a = b.
Proof. induction s as [|c s IH]; cbn; [trivial | intros [= H]; auto]. Qed.

(** Two strings of one length that start two equal concatenations are
    equal, and so are the rests. *)
Lemma append_inv_length (s1 s2 r1 r2 : string) :
  String.length s1 = String.length s2 ->
  s1 ++ r1 = s2 ++ r2 -> s1 = s2 /\ r1 = r2.
Proof.
  revert s2. induction s1 as [|c s1 IH]; intros [|c' s2] Hl H;
    try discriminate Hl.
  - now split.
  - cbn in H. injection H as -> H. injection Hl as Hl.
    destruct (IH _ Hl H) as [-> ->]. now split.
Qed.

Lemma to_N_inj (x y : byte) : Byte.to_N x = Byte.to_N y -> x = y.
Proof.
  intros H. pose proof (Byte.of_to_N x) as Hx. rewrite H, Byte.of_to_N in Hx.
  now injection Hx.
Qed.

Lemma hex_fill_parts (i : N) (size : nat) :
  exists ds,
    _hex_fill i size = "0x" ++ ds /\
    hex_value ds = Some i /\
    2 * size <= String.length ds /\
    1 <= String.length ds.
Proof.
  unfold _hex_fill, format_hex, hex_digits.
  set (ds := hex_digits_aux _ i "").
  exists (zeros (size * 2 + 2 - 2 - String.length ds) ++ ds).
  split; [reflexivity|]. split.
  - rewrite hex_value_zeros. apply hex_value_digits_aux; [|lia].
    apply hex_digits_fuel.
  - rewrite length_append, length_zeros.
    assert (1 <= String.length ds); [|lia].
    unfold ds. cbn [hex_digits_aux].
    destruct (i / 16 =? 0)%N; [cbn; lia|].
    rewrite hex_digits_aux_acc, length_append. cbn. lia.
Qed.

Lemma hex_fill_inj (i j : N) (size size' : nat) :
  _hex_fill i size = _hex_fill j size' -> i = j.
Proof.
  intros H.
  destruct (hex_fill_parts i size) as (ds & E & V & _).
  destruct (hex_fill_parts j size') as (ds' & E' & V' & _).
  rewrite E, E' in H. apply append_inv_head in H. subst ds'.
  rewrite V in V'. now injection V'.
Qed.

(** The token of a byte: [0x] and two digits. *)
Lemma hex_fill_byte (x : byte) : is_hex_token 2 (Byte.to_N x) (_hex_fill (Byte.to_N x) 1).
Proof.
  apply (hex_fill_token (Byte.to_N x) 1); [lia|].
  pose proof (Byte.to_N_bounded x). cbn. lia.
Qed.

Lemma length_hex_fill_byte (x : byte) :
  String.length (_hex_fill (Byte.to_N x) 1) = 4.
Proof.
  destruct (hex_fill_byte x) as (ds & -> & Hl & _). cbn. now rewrite Hl.
Qed.

(** X1: [_hex_fill] never truncates. For every non-negative value and
    non-negative size (the only ones the program passes) the token is
    [0x] followed by digits that denote the value; there are at least
    [2 * size] of them (more when the value does not fit in [size]
    bytes), and at least one. *)
Theorem hex_fill_denotes (i : N) (size : nat) :
  exists ds,
    _hex_fill i size = "0x" ++ ds /\
    hex_value ds = Some i /\
    2 * size <= String.length ds /\
    1 <= String.length ds.
Proof. exact (hex_fill_parts i size). Qed.

(** X2: a token of [_hex_fill] determines the value, whatever sizes the
    two tokens were made with. *)
Theorem hex_fill_injective (i j : N) (size size' : nat) :
  _hex_fill i size = _hex_fill j size' -> i = j.
Proof. exact (hex_fill_inj i j size size'). Qed.

Lemma hex_fill_injective_witness :
  _hex_fill 7 1 = _hex_fill 7 1 /\ 7%N = 7%N.
Proof.
  split; [reflexivity|].
  apply (hex_fill_injective 7 7 1 1). reflexivity.
Defined.

(** X3: [_get_params_hex] yields one token per byte, in order: [0x]
    and exactly two digits that denote the byte. In particular the
    output is as long as the input, the empty input included. *)
Theorem get_params_hex_tokens (b : list byte) :
  Forall2 (fun x tok => is_hex_token 2 (Byte.to_N x) tok) b (_get_params_hex b) /\
  List.length (_get_params_hex b) = List.length b.
Proof.
  split; [|apply List.length_map].
  induction b as [|x b IH]; cbn [_get_params_hex map]; constructor;
    [apply hex_fill_byte | exact IH].
Qed.

Lemma get_params_hex_inj (b1 b2 : list byte) :
  _get_params_hex b1 = _get_params_hex b2 -> b1 = b2.
Proof.
  revert b2. induction b1 as [|x b1 IH]; intros [|y b2] H;
    try discriminate H; [reflexivity|].
  cbn [_get_params_hex map] in H.
  pose proof (f_equal (hd "") H) as Hx. pose proof (f_equal (@tl string) H) as Hb.
  cbn [hd tl] in Hx, Hb.
  f_equal; [apply to_N_inj; exact (hex_fill_inj _ _ _ _ Hx) | now apply IH].
Qed.

(** X4: [_get_params_hex] loses nothing: equal token lists come from
    equal byte sequences. *)
Theorem get_params_hex_injective (b1 b2 : list byte) :
  _get_params_hex b1 = _get_params_hex b2 -> b1 = b2.
Proof. exact (get_params_hex_inj b1 b2). Qed.

Lemma get_params_hex_injective_witness :
  _get_params_hex [x0a; xff] = _get_params_hex [x0a; xff] /\
  [x0a; xff] = [x0a; xff].
Proof.
  split; [reflexivity|].
  apply (get_params_hex_injective [x0a; xff] [x0a; xff]). reflexivity.
Defined.

Lemma join_params_cons (s : string) (p : list string) :
  _join_params (s :: p) = ", " ++ s ++ _join_params p.
Proof.
  destruct p as [|s' p]; cbn [_join_params join].
  - now rewrite append_nil_r.
  - reflexivity.
Qed.

Lemma join_params_app (p q : list string) :
  _join_params (p ++ q)%list = _join_params p ++ _join_params q.
Proof.
  induction p as [|s p IH]; [reflexivity|].
  change ((s :: p) ++ q)%list with (s :: (p ++ q)%list).
  rewrite !join_params_cons, IH. cbn [append].
  now rewrite !append_assoc.
Qed.

(** X5: [_join_params] puts [", "] before every parameter, the first
    included, so that it distributes over concatenation of parameter
    lists; it is empty only on the empty list. *)
Theorem join_params_concat (p q : list string) :
  _join_params (p ++ q)%list = _join_params p ++ _join_params q /\
  (_join_params p = "" <-> p = []).
Proof.
  split; [apply join_params_app|]. split.
  - destruct p as [|s p]; [reflexivity|].
    rewrite join_params_cons. discriminate.
  - now intros ->.
Qed.

(** With a valid byte order the codec raises on no input. *)
Lemma get_params_int_total (size : nat) (byteorder : string) (b : list byte) :
  byteorder = "big" \/ byteorder = "little" ->
  _get_params_int size byteorder b =
    Return (map (fun t => _hex_fill (unsigned_in byteorder t) size)
                (zip_shared size b)).
Proof.
  intros Hbo. unfold _get_params_int. apply mapM_Return. intros t.
  now rewrite (int_from_bytes_unsigned t byteorder Hbo).
Qed.

(** X6: the two byte orders mirror each other. The little-endian codec
    on groups written backwards yields the tokens of the big-endian
    codec on the groups as they are. *)
Theorem get_params_int_byteorder_mirror (W : nat) (gs : list (list byte)) :
  0 < W ->
  Forall (fun g => List.length g = W) gs ->
  _get_params_int W "little" (List.concat (map (@rev byte) gs)) =
  _get_params_int W "big" (List.concat gs).
Proof.
  intros HW Hgs.
  assert (Hrev : Forall (fun g => List.length g = W) (map (@rev byte) gs)).
  { induction Hgs as [|g gs Hg _ IH]; cbn [map]; constructor; [|exact IH].
    now rewrite List.length_rev. }
  rewrite <- (List.app_nil_r (List.concat (map (@rev byte) gs))).
  rewrite <- (List.app_nil_r (List.concat gs)).
  rewrite (get_params_int_groups W "little" _ [] HW (or_intror eq_refl) Hrev HW).
  rewrite (get_params_int_groups W "big" _ [] HW (or_introl eq_refl) Hgs HW).
  rewrite List.map_map. f_equal.
Qed.

Lemma get_params_int_byteorder_mirror_witness :
  _get_params_int 2 "little" (List.concat (map (@rev byte) [[x01; x2c]; [xab; xcd]])) =
  _get_params_int 2 "big" (List.concat [[x01; x2c]; [xab; xcd]]).
Proof.
  apply (get_params_int_byteorder_mirror 2 [[x01; x2c]; [xab; xcd]]);
    [lia | repeat constructor].
Defined.

(** X7: an input shorter than the width, the empty input included, and
    any input under width 0 yield no token and no error, whatever the
    byte order string is: [int.from_bytes] is not reached. *)
Theorem get_params_int_short (size : nat) (byteorder : string) (b : list byte) :
  size = 0 \/ List.length b < size ->
  _get_params_int size byteorder b = Return [].
Proof.
  intros H. unfold _get_params_int, zip_shared.
  destruct size as [|size']; [reflexivity|].
  destruct H as [H|H]; [discriminate|].
  destruct b as [|x b]; [reflexivity|].
  cbn [List.length zip_shared_aux]. now rewrite next_tuple_short.
Qed.

Lemma get_params_int_short_witness :
  List.length [x2c] < 2 /\ _get_params_int 2 "middle" [x2c] = Return [].
Proof.
  split; [cbn; lia|].
  apply (get_params_int_short 2 "middle" [x2c]). right. cbn. lia.
Defined.

Lemma TearMode_call_inv (v : N) (m : TearMode) :
  TearMode_call v = Return m -> TearMode_value m = v.
Proof.
  unfold TearMode_call.
  destruct (find _ TearMode_members) as [c|] eqn:E; [|discriminate].
  intros [= <-]. apply find_some in E. now apply N.eqb_eq.
Qed.

Lemma TearMode_call_value (m : TearMode) :
  TearMode_call (TearMode_value m) = Return m.
Proof. destruct m; reflexivity. Qed.

(** X8: [TearMode.get_params] succeeds exactly when the input has a
    first byte that is the value of a mode; it then yields the single
    identifier of that mode, and the bytes after the first are not
    looked at. *)
Theorem TearMode_get_params_Return_iff (b : list byte) (toks : list string) :
  TearMode_get_params b = Return toks <->
  exists (m : TearMode) (b0 : byte) (rest : list byte),
    b = b0 :: rest /\
    Byte.to_N b0 = TearMode_value m /\
    toks = [TearMode_identifier m].
Proof.
  split.
  - destruct b as [|b0 rest]; [discriminate|]. cbn [TearMode_get_params].
    destruct (TearMode_call (Byte.to_N b0)) as [m|e] eqn:E; [|discriminate].
    cbn [bind]. intros [= <-]. exists m, b0, rest.
    split; [reflexivity|]. split; [|reflexivity].
    symmetry. now apply TearMode_call_inv.
  - intros (m & b0 & rest & -> & Hv & ->). cbn [TearMode_get_params].
    now rewrite Hv, TearMode_call_value.
Qed.

Lemma TearMode_get_params_Return_iff_witness :
  TearMode_get_params [x01; xff; x07] = Return ["MIPI_DSI_DCS_TEAR_MODE_VHBLANK"].
Proof.
  apply (proj2 (TearMode_get_params_Return_iff [x01; xff; x07]
                                               ["MIPI_DSI_DCS_TEAR_MODE_VHBLANK"])).
  exists VHBLANK, x01, [xff; x07]. repeat split.
Defined.

(** * Further properties of the enumerations and of [find] *)

(** X9: [DCSCommand.find] raises on the empty payload only, and what it
    raises there is [IndexError]; the [ValueError] of the look-up never
    leaves it. *)
Theorem find_raises_iff (payload : list byte) (e : exn) :
  DCSCommand_find payload = Raise e <-> payload = [] /\ e = IndexError.
Proof.
  split.
  - destruct payload as [|p0 args]; [now intros [= <-]|].
    destruct (DCSCommand_call (Byte.to_N p0)) as [d|e'] eqn:E.
    + rewrite (DCSCommand_find_known _ _ _ E). discriminate.
    + rewrite (DCSCommand_find_unknown _ _ _ E). discriminate.
  - now intros [-> ->].
Qed.

Lemma find_raises_iff_witness : DCSCommand_find [] = Raise IndexError.
Proof. apply (proj2 (find_raises_iff [] IndexError)). split; reflexivity. Defined.

(** X10: [DCSCommand.find] returns a member exactly when the payload
    starts with the value of that member and the member has a recorded
    argument count equal to the number of bytes that follow. *)
Theorem find_Some_iff (payload : list byte) (d : DCSCommand) :
  DCSCommand_find payload = Return (Some d) <->
  exists (p0 : byte) (args : list byte),
    payload = p0 :: args /\
    DCSCommand_value d = Byte.to_N p0 /\
    DCSCommand_nargs d = Some (Z.of_nat (List.length args)).
Proof.
  split; [apply DCSCommand_find_Some|].
  intros (p0 & args & -> & Hv & Hn).
  rewrite (DCSCommand_find_known p0 args d).
  - rewrite Hn. cbn [int_eq_opt]. now rewrite Z.eqb_refl.
  - rewrite <- Hv. apply DCSCommand_call_value.
Qed.

Lemma find_Some_iff_witness :
  DCSCommand_find [x2a; x00; x01; x02; x03] = Return (Some SET_COLUMN_ADDRESS).
Proof.
  apply (proj2 (find_Some_iff [x2a; x00; x01; x02; x03] SET_COLUMN_ADDRESS)).
  exists x2a, [x00; x01; x02; x03]. repeat split.
Defined.

(** X11: look-up by value and [value] are inverse on [DCSCommand]: a
    value names at most one member (the class is [@unique]), and every
    value fits in a byte, so every member can head a payload. *)
Theorem DCSCommand_call_iff (v : N) (d : DCSCommand) :
  (DCSCommand_call v = Return d <-> DCSCommand_value d = v) /\
  (DCSCommand_value d < 256)%N /\
  (forall d', DCSCommand_value d' = DCSCommand_value d -> d' = d).
Proof.
  split; [split|split].
  - apply DCSCommand_call_inv.
  - intros <-. apply DCSCommand_call_value.
  - destruct d; reflexivity.
  - intros d' H. pose proof (DCSCommand_call_value d') as H'.
    rewrite H, DCSCommand_call_value in H'. now injection H'.
Qed.

Lemma Transaction_call_value (t : Transaction) :
  Transaction_call (Transaction_value t) = Return t.
Proof. destruct t; reflexivity. Qed.

Lemma Transaction_call_inv (v : N) (t : Transaction) :
  Transaction_call v = Return t -> Transaction_value t = v.
Proof.
  unfold Transaction_call.
  destruct (find _ Transaction_members) as [c|] eqn:E; [|discriminate].
  intros [= <-]. apply find_some in E. now apply N.eqb_eq.
Qed.

(** X12: the same for [Transaction]: look-up by value and [value] are
    inverse, values are unique and fit in a byte. *)
Theorem Transaction_call_iff (v : N) (t : Transaction) :
  (Transaction_call v = Return t <-> Transaction_value t = v) /\
  (Transaction_value t < 256)%N /\
  (forall t', Transaction_value t' = Transaction_value t -> t' = t).
Proof.
  split; [split|split].
  - apply Transaction_call_inv.
  - intros <-. apply Transaction_call_value.
  - destruct t; reflexivity.
  - intros t' H. pose proof (Transaction_call_value t') as H'.
    rewrite H, Transaction_call_value in H'. now injection H'.
Qed.

Lemma DCSCommand_call_iff_witness :
  DCSCommand_call 0x29 = Return SET_DISPLAY_ON.
Proof.
  apply (proj2 (proj1 (DCSCommand_call_iff 0x29 SET_DISPLAY_ON))). reflexivity.
Defined.

Lemma Transaction_call_iff_witness :
  Transaction_call 0x39 = Return DCS_LONG_WRITE.
Proof.
  apply (proj2 (proj1 (Transaction_call_iff 0x39 DCS_LONG_WRITE))). reflexivity.
Defined.

(** * Further properties of the generators *)

Lemma byte_of_value (p0 : byte) (v : N) :
  Byte.to_N p0 = v -> Byte.of_N v = Some p0.
Proof. intros <-. apply Byte.of_to_N. Qed.

Lemma TearMode_call_raises (v : N) (e : exn) :
  TearMode_call v = Raise e -> e = ValueError.
Proof.
  unfold TearMode_call. destruct (find _ _); [discriminate|]. now intros [= <-].
Qed.

Lemma TearMode_call_other (b : byte) :
  b <> x00 -> b <> x01 -> TearMode_call (Byte.to_N b) = Raise ValueError.
Proof.
  intros H0 H1.
  destruct (TearMode_call (Byte.to_N b)) as [m|e] eqn:E.
  - apply TearMode_call_inv, eq_sym, byte_of_value in E.
    destruct m; cbn in E; injection E as <-; congruence.
  - now rewrite (TearMode_call_raises _ _ E).
Qed.

Lemma list_length0 {A : Type} (l : list A) : Z.of_nat (List.length l) = 0%Z -> l = [].
Proof. destruct l; [reflexivity | cbn [List.length]; lia]. Qed.

Lemma list_length1 {A : Type} (l : list A) :
  Z.of_nat (List.length l) = 1%Z -> exists x, l = [x].
Proof.
  destruct l as [|x [|y l]]; cbn [List.length]; try lia. now exists x.
Qed.

(** X13: the exact failures of the command-set write generator. It
    raises [IndexError] on the empty payload and on the payload [34]
    (tear off, whose codec reads a byte that is not there), it raises
    [ValueError] on [35 b] with [b] no tear mode, and it returns a text
    on every other payload. *)
Theorem generate_dcs_write_raises_iff
    (t : Transaction) (payload : list byte) (e : exn) :
  _generate_dcs_write t payload = Raise e <->
  (e = IndexError /\ (payload = [] \/ payload = [x34])) \/
  (e = ValueError /\ exists b, payload = [x35; b] /\ b <> x00 /\ b <> x01).
Proof.
  split.
  - destruct payload as [|p0 args]; [intros [= <-]; left; auto|].
    unfold _generate_dcs_write.
    destruct (DCSCommand_call (Byte.to_N p0)) as [d|e'] eqn:Ec.
    2:{ rewrite (DCSCommand_find_unknown _ _ _ Ec). discriminate. }
    rewrite (DCSCommand_find_known _ _ _ Ec). cbn [bind].
    destruct (int_eq_opt _ (DCSCommand_nargs d)) eqn:En; [|discriminate].
    destruct (DCSCommand_method d) as [m|] eqn:Hm; [|discriminate].
    rewrite (DCSCommand_method_truthy d m Hm). cbn [tl].
    apply DCSCommand_call_inv, eq_sym, byte_of_value in Ec.
    destruct d; try discriminate Hm; cbn [DCSCommand_get_params bind];
      try discriminate;
      try (rewrite get_params_int_total by (auto); discriminate).
    + cbn in Ec. injection Ec as <-. cbn in En.
      apply Z.eqb_eq, list_length0 in En. subst args.
      intros [= <-]. left. auto.
    + cbn in Ec. injection Ec as <-. cbn in En.
      apply Z.eqb_eq, list_length1 in En. destruct En as [b ->].
      cbn [TearMode_get_params].
      destruct (TearMode_call (Byte.to_N b)) as [md|e'] eqn:Et; [discriminate|].
      cbn [bind]. intros [= <-]. right.
      split; [exact (TearMode_call_raises _ _ Et)|].
      exists b. split; [reflexivity|].
      split; intros ->; discriminate Et.
  - intros [[-> [-> | ->]] | [-> (b & -> & H0 & H1)]]; try reflexivity.
    unfold _generate_dcs_write.
    rewrite (DCSCommand_find_known x35 [b] SET_TEAR_ON eq_refl).
    cbn [bind List.length int_eq_opt DCSCommand_nargs Z.of_nat Z.eqb
         DCSCommand_method truthy tl DCSCommand_get_params TearMode_get_params].
    cbn. now rewrite (TearMode_call_other b H0 H1).
Qed.

Lemma generate_dcs_write_raises_iff_witness :
  _generate_dcs_write DCS_LONG_WRITE [x35; x09] = Raise ValueError.
Proof.
  apply (proj2 (generate_dcs_write_raises_iff DCS_LONG_WRITE [x35; x09] ValueError)).
  right. split; [reflexivity|]. exists x09. repeat split; discriminate.
Defined.

(** X14: the transactions that cannot be rendered. [generate] raises
    [ValueError] on every payload exactly for the members defined
    without a generator, that is for all but the two peripheral
    transactions, the four generic writes and the three command-set
    writes. *)
Theorem generate_unsupported_iff (t : Transaction) :
  (forall payload, Transaction_generate t payload = Raise ValueError) <->
  ~ In t [ SHUTDOWN_PERIPHERAL; TURN_ON_PERIPHERAL;
           GENERIC_SHORT_WRITE_0_PARAM; GENERIC_SHORT_WRITE_1_PARAM;
           GENERIC_SHORT_WRITE_2_PARAM; GENERIC_LONG_WRITE;
           DCS_SHORT_WRITE; DCS_SHORT_WRITE_PARAM; DCS_LONG_WRITE ].
Proof.
  split.
  - intros H Hin. specialize (H [x29]).
    cbn [In] in Hin.
    repeat (destruct Hin as [<- | Hin]; [vm_compute in H; discriminate H|]).
    exact Hin.
  - intros H payload.
    destruct t; try reflexivity; exfalso; apply H; cbn [In]; tauto.
Qed.

Lemma generate_unsupported_iff_witness :
  Transaction_generate DCS_READ [x0a] = Raise ValueError.
Proof.
  apply (proj2 (generate_unsupported_iff DCS_READ)).
  cbn [In]. intros H.
  repeat (destruct H as [H | H]; [discriminate H|]). exact H.
Defined.

Lemma join_hex_inj (p1 p2 : list byte) (s : string) :
  (exists c s', s = String c s' /\ c <> ","%char) ->
  _join_params (_get_params_hex p1) ++ s = _join_params (_get_params_hex p2) ++ s ->
  p1 = p2.
Proof.
  intros (c & s' & -> & Hc). revert p2.
  induction p1 as [|x p1 IH]; intros [|y p2] H; [reflexivity | | |].
  - cbn [_get_params_hex map] in H. rewrite join_params_cons in H.
    cbn in H. injection H as H _. now elim Hc.
  - cbn [_get_params_hex map] in H. rewrite join_params_cons in H.
    cbn in H. injection H as H _. now elim Hc.
  - cbn [_get_params_hex map] in H. rewrite !join_params_cons in H.
    rewrite !append_assoc in H. apply append_inv_head in H.
    apply append_inv_length in H;
      [|now rewrite !length_hex_fill_byte].
    destruct H as [Hx Hrest].
    f_equal; [apply to_N_inj; exact (hex_fill_inj _ _ _ _ Hx) | now apply IH].
Qed.

(** X15: a generic write never fails, whatever the length of the
    payload (the [max_args] of the transaction is not looked at), and
    its text determines the payload: two payloads rendered alike, under
    any two generic write transactions, are equal. *)
Theorem generate_generic_write_injective
    (t t' : Transaction) (p1 p2 : list byte) :
  In t [ GENERIC_SHORT_WRITE_0_PARAM; GENERIC_SHORT_WRITE_1_PARAM;
         GENERIC_SHORT_WRITE_2_PARAM; GENERIC_LONG_WRITE ] ->
  In t' [ GENERIC_SHORT_WRITE_0_PARAM; GENERIC_SHORT_WRITE_1_PARAM;
          GENERIC_SHORT_WRITE_2_PARAM; GENERIC_LONG_WRITE ] ->
  (exists out, Transaction_generate t p1 = Return out) /\
  (Transaction_generate t p1 = Transaction_generate t' p2 <-> p1 = p2).
Proof.
  intros Ht Ht'.
  assert (E : forall u p,
             In u [ GENERIC_SHORT_WRITE_0_PARAM; GENERIC_SHORT_WRITE_1_PARAM;
                    GENERIC_SHORT_WRITE_2_PARAM; GENERIC_LONG_WRITE ] ->
             Transaction_generate u p =
               Return (tab ++ "dsi_generic_write_seq(dsi"
                           ++ _join_params (_get_params_hex p) ++ ");")).
  { intros u p Hu. cbn [In] in Hu.
    repeat (destruct Hu as [<- | Hu]; [reflexivity|]). elim Hu. }
  rewrite (E t p1 Ht), (E t' p2 Ht'). split; [eexists; reflexivity|].
  split; [|now intros ->].
  intros [= H].
  apply (join_hex_inj p1 p2 ");"); [|exact H].
  exists ")"%char, ";". split; [reflexivity | discriminate].
Qed.

Lemma generate_generic_write_injective_witness :
  Transaction_generate GENERIC_SHORT_WRITE_0_PARAM [xb0; x04; x7f] =
  Transaction_generate GENERIC_LONG_WRITE [xb0; x04; x7f].
Proof.
  apply (proj2 (proj2 (generate_generic_write_injective
                         GENERIC_SHORT_WRITE_0_PARAM GENERIC_LONG_WRITE
                         [xb0; x04; x7f] [xb0; x04; x7f]
                         (or_introl eq_refl)
                         (or_intror (or_intror (or_intror (or_introl eq_refl))))))).
  reflexivity.
Defined.

(** X16: a resolved payload never reaches a fixed-width codec
    misaligned. For the four members whose codec is [_get_params_int]
    (width 2), the bytes after the opcode of a resolved payload are an
    even number, the codec succeeds on them and yields one token per
    two bytes: none is dropped. *)
Theorem resolved_fixed_width_aligned (payload : list byte) (d : DCSCommand) :
  In d [ SET_COLUMN_ADDRESS; SET_PAGE_ADDRESS; SET_TEAR_SCANLINE;
         SET_DISPLAY_BRIGHTNESS ] ->
  DCSCommand_find payload = Return (Some d) ->
  exists tokens,
    DCSCommand_get_params d (tl payload) = Return tokens /\
    2 * List.length tokens = List.length (tl payload).
Proof.
  intros Hd Hf.
  destruct (DCSCommand_find_Some payload d Hf) as (p0 & args & -> & _ & Hn).
  cbn [tl]. cbn [In] in Hd.
  assert (Hlen : List.length args = 4 \/ List.length args = 2).
  { repeat (destruct Hd as [<- | Hd]; [cbn in Hn; injection Hn; lia|]). elim Hd. }
  assert (Hcodec : exists bo, (bo = "big" \/ bo = "little") /\
                     DCSCommand_get_params d args = _get_params_int 2 bo args).
  { repeat (destruct Hd as [<- | Hd];
            [first [ exists "big"; split; [now left | reflexivity]
                   | exists "little"; split; [now right | reflexivity] ]|]).
    elim Hd. }
  destruct Hcodec as (bo & Hbo & ->).
  rewrite (get_params_int_total 2 bo args Hbo).
  eexists. split; [reflexivity|]. rewrite List.length_map.
  destruct Hlen as [Hlen | Hlen].
  - destruct args as [|a1 [|a2 [|a3 [|a4 [|a5 args]]]]]; try discriminate Hlen.
    reflexivity.
  - destruct args as [|a1 [|a2 [|a3 args]]]; try discriminate Hlen.
    reflexivity.
Qed.

Lemma resolved_fixed_width_aligned_witness :
  DCSCommand_find [x51; xff; x03] = Return (Some SET_DISPLAY_BRIGHTNESS) /\
  exists tokens,
    DCSCommand_get_params SET_DISPLAY_BRIGHTNESS (tl [x51; xff; x03]) = Return tokens /\
    2 * List.length tokens = List.length (tl [x51; xff; x03]).
Proof.
  split; [reflexivity|].
  apply (resolved_fixed_width_aligned [x51; xff; x03] SET_DISPLAY_BRIGHTNESS);
    [cbn [In]; tauto | reflexivity].
Defined.

Lemma DCSCommand_name_lookup (d : DCSCommand) :
  find (fun c => String.eqb (DCSCommand_name c) (DCSCommand_name d))
       DCSCommand_members = Some d.
Proof. destruct d; reflexivity. Qed.

Lemma Transaction_name_lookup (t : Transaction) :
  find (fun c => String.eqb (Transaction_name c) (Transaction_name t))
       Transaction_members = Some t.
Proof. destruct t; reflexivity. Qed.

(** X17: identifiers name their member. Within each enumeration two
    members never share an identifier, and no identifier of a command
    is the identifier of a transaction: the two families differ in
    their prefix. *)
Theorem identifiers_distinct
    (d d' : DCSCommand) (t t' : Transaction) :
  (DCSCommand_identifier d = DCSCommand_identifier d' -> d = d') /\
  (Transaction_identifier t = Transaction_identifier t' -> t = t') /\
  DCSCommand_identifier d <> Transaction_identifier t.
Proof.
  split; [|split].
  - unfold DCSCommand_identifier. intros H. apply append_inv_head in H.
    pose proof (DCSCommand_name_lookup d) as L.
    rewrite H, DCSCommand_name_lookup in L. now injection L.
  - unfold Transaction_identifier. intros H. apply append_inv_head in H.
    pose proof (Transaction_name_lookup t) as L.
    rewrite H, Transaction_name_lookup in L. now injection L.
  - unfold DCSCommand_identifier, Transaction_identifier. cbn [append].
    intros H. discriminate H.
Qed.

Lemma identifiers_distinct_witness :
  DCSCommand_identifier NOP = DCSCommand_identifier NOP /\
  DCSCommand_identifier NOP <> Transaction_identifier NULL_PACKET.
Proof.
  split; [reflexivity|].
  exact (proj2 (proj2 (identifiers_distinct NOP NOP NULL_PACKET NULL_PACKET))).
Defined.

(** X18: the description of a member, which the error-checked call
    puts inside a C string literal, is as long as the name of the
    member and is made of spaces, digits and lower-case letters only: no
    underscore and no upper-case letter is left, and nothing that would
    end or escape the literal. *)
Theorem descriptions_are_plain (d : DCSCommand) (t : Transaction) :
  string_forallb message_char (DCSCommand_description d) = true /\
  String.length (DCSCommand_description d) = String.length (DCSCommand_name d) /\
  string_forallb message_char (Transaction_description t) = true /\
  String.length (Transaction_description t) = String.length (Transaction_name t).
Proof.
  split; [destruct d; reflexivity|]. split; [destruct d; reflexivity|].
  split; destruct t; reflexivity.
Qed.

(** X19: [DCSCommand.find] returns [None] exactly on a non-empty
    payload for which no member has both the first byte as its value
    and the number of following bytes as its recorded argument count;
    an unknown opcode, a wrong count and a member without a count all
    end there. *)
Theorem find_None_iff (payload : list byte) :
  DCSCommand_find payload = Return None <->
  exists (p0 : byte) (args : list byte),
    payload = p0 :: args /\
    forall d : DCSCommand,
      DCSCommand_value d = Byte.to_N p0 ->
      DCSCommand_nargs d <> Some (Z.of_nat (List.length args)).
Proof.
  split.
  - destruct payload as [|p0 args]; [discriminate|]. intros H.
    exists p0, args. split; [reflexivity|]. intros d Hv Hn.
    rewrite (DCSCommand_find_known p0 args d) in H
      by (rewrite <- Hv; apply DCSCommand_call_value).
    rewrite Hn in H. cbn [int_eq_opt] in H. rewrite Z.eqb_refl in H.
    discriminate H.
  - intros (p0 & args & -> & H).
    destruct (DCSCommand_call (Byte.to_N p0)) as [d|e] eqn:Ec.
    + rewrite (DCSCommand_find_known _ _ _ Ec).
      specialize (H d (DCSCommand_call_inv _ _ Ec)).
      destruct (DCSCommand_nargs d) as [n|]; cbn [int_eq_opt]; [|reflexivity].
      destruct (Z.eqb_spec (Z.of_nat (List.length args)) n); [|reflexivity].
      subst n. now elim H.
    + exact (DCSCommand_find_unknown _ _ _ Ec).
Qed.

Lemma find_None_iff_witness :
  exists (p0 : byte) (args : list byte),
    [x26] = p0 :: args /\
    forall d : DCSCommand,
      DCSCommand_value d = Byte.to_N p0 ->
      DCSCommand_nargs d <> Some (Z.of_nat (List.length args)).
Proof.
  apply (proj1 (find_None_iff [x26])). reflexivity.
Defined.

Lemma join_params_concat_witness :
  _join_params [] = "" /\ @nil string = [].
Proof.
  split; [reflexivity|].
  apply (proj1 (proj2 (join_params_concat [] ["0x00"]))). reflexivity.
Defined.
